(** * MAGI assistant (llm_menu.py): the chat window's streaming coordinator

    A shallow embedding of [MainWindow] of [llm_menu.py]: the send handler,
    the worker thread [send_to_ollama] with the closures it hands to
    [GLib.idle_add], the fence splitter [split_and_create_boxes], and the
    history file ([load_history], [save_history]).

    Modelling boundary.  GTK, GLib, [requests] and [json] are libraries:
    - a [Gtk.Label] stores the text it is given and [get_text] returns it;
    - [GLib.idle_add] appends a one-shot closure to a FIFO queue that only
      the main loop drains (every closure here returns [None]);
    - the network is an environment that answers the POST and then delivers
      the lines of the body one at a time;
    - a line, and the history file, are given by what [json.loads] /
      [json.load] make of them (a value or an exception), and [json.dump]
      followed by [json.load] gives back the dumped value.
    Closing the window (Escape, loss of focus) ends a run; window placement,
    the clipboard, [espeak] and the run button do not touch the state below.

    Beside the coordinator: the buttons [MessageBox.__init__] gives a box,
    the arithmetic of [setup_position], and the progress file of
    [whisper_server.py] ([update_progress] and the [/status] route), with
    [int] as a parameter of [status] and the encoding of the file as a
    parameter of [update_progress]. *)

From Stdlib Require Import ZArith NArith List String Ascii Bool Lia DecimalString.
From Stdlib Require DecimalPos DecimalZ.
From stdpp Require Import base list numbers.

Local Open Scope bool_scope.
Set Warnings "-register-all".

(** ** Python [str] : a sequence of Unicode code points *)

Module Py.

Definition char := N.
Definition str := list N.

(** A literal of the source, given by its ASCII characters. *)
Definition lit (s : string) : str := map N_of_ascii (list_ascii_of_string s).
Arguments lit : simpl never.

(** [str.isspace] on one code point (CPython's [_PyUnicode_IsWhitespace]). *)
Definition isspace (c : char) : bool :=
  ((9 <=? c) && (c <=? 13))%N || ((28 <=? c) && (c <=? 32))%N
  || (c =? 133)%N || (c =? 160)%N || (c =? 5760)%N
  || ((8192 <=? c) && (c <=? 8202))%N
  || (c =? 8232)%N || (c =? 8233)%N || (c =? 8239)%N || (c =? 8287)%N
  || (c =? 12288)%N.

Fixpoint lstrip (s : str) : str :=
  match s with
  | [] => []
  | c :: s' => if isspace c then lstrip s' else s
  end.

Definition rstrip (s : str) : str := rev (lstrip (rev s)).

(** [s.strip()] *)
Definition strip (s : str) : str := rstrip (lstrip s).

(** Truth value of a [str] in a condition: non-empty. *)
Definition truthy (s : str) : bool :=
  match s with [] => false | _ :: _ => true end.

(** [a == b] *)
Fixpoint eqb (a b : str) : bool :=
  match a, b with
  | [], [] => true
  | x :: a', y :: b' => (x =? y)%N && eqb a' b'
  | _, _ => false
  end.

(** [s.startswith(p)] *)
Fixpoint startswith (p s : str) : bool :=
  match p, s with
  | [], _ => true
  | _ :: _, [] => false
  | a :: p', b :: s' => (a =? b)%N && startswith p' s'
  end.

(** [p in s] for two strings: [p] occurs in [s]. *)
Fixpoint contains (p s : str) : bool :=
  startswith p s || match s with [] => false | _ :: s' => contains p s' end.

(** [s.split(sep)] for a non-empty separator: the leftmost occurrence of
    [sep] ends the current piece and the scan resumes behind it.  [cur] is
    the current piece, reversed; [skip] counts the characters of a matched
    separator that are still to be passed over. *)
Fixpoint split_from (sep : str) (skip : nat) (cur : str) (s : str) : list str :=
  match s with
  | [] => [rev cur]
  | c :: s' =>
      match skip with
      | S k => split_from sep k cur s'
      | O =>
          if startswith sep s
          then rev cur :: split_from sep (length sep - 1) [] s'
          else split_from sep 0 (c :: cur) s'
      end
  end.

Definition split (sep s : str) : list str := split_from sep 0 [] s.

(** [sep.join(pieces)] *)
Fixpoint join (sep : str) (pieces : list str) : str :=
  match pieces with
  | [] => []
  | piece :: rest =>
      match rest with
      | [] => piece
      | _ :: _ => piece ++ sep ++ join sep rest
      end
  end.

(** [str(n)] for an [int]. *)
Definition str_of_int (n : Z) : str :=
  lit (NilZero.string_of_int (Z.to_int n)).
Arguments str_of_int : simpl never.

End Py.

Import Py.

(** The fence of [split_and_create_boxes]: three backticks. *)
Definition fence : str := [96; 96; 96]%N.

(** ** [split_and_create_boxes], the pure part

    [parts] are the pieces of [full_response.split(fence)]; the loop keeps a
    flag [is_code], creates a box for every piece whose stripped text is
    non-empty, and flips the flag after each box it creates. *)

Fixpoint create_boxes (is_code : bool) (parts : list str) : list (str * bool) :=
  match parts with
  | [] => []
  | part :: rest =>
      if truthy (strip part)
      then (strip part, is_code) :: create_boxes (negb is_code) rest
      else create_boxes is_code rest
  end.

Definition split_segments (full_response : str) : list (str * bool) :=
  create_boxes false (split fence full_response).

(** ** Values: what [json.loads] returns, and what a flag of a box may hold *)

(** Numbers are kept as integers: the code never computes with one, and a
    float takes the same branches as an [int]. *)
Inductive json :=
| JNull
| JBool (b : bool)
| JNum (n : Z)
| JStr (s : str)
| JArr (items : list json)
| JObj (fields : list (str * json)).

(** Truth value of a value in a condition. *)
Definition truth (v : json) : bool :=
  match v with
  | JNull => false
  | JBool b => b
  | JNum n => negb (n =? 0)%Z
  | JStr s => truthy s
  | JArr items => match items with [] => false | _ => true end
  | JObj fields => match fields with [] => false | _ => true end
  end.

Definition type_name (v : json) : str :=
  match v with
  | JNull => lit "NoneType" | JBool _ => lit "bool" | JNum _ => lit "int"
  | JStr _ => lit "str" | JArr _ => lit "list" | JObj _ => lit "dict"
  end.

(** A [dict] as the list of its items in insertion order; keys are unique,
    a lookup takes the first item with the key. *)
Fixpoint lookup_key (key : str) (fields : list (str * json)) : option json :=
  match fields with
  | [] => None
  | (k, v) :: rest => if Py.eqb key k then Some v else lookup_key key rest
  end.

Definition is_str (key : str) (v : json) : bool :=
  match v with JStr s => Py.eqb key s | _ => false end.

(** ** Exceptions and results *)

Inductive exn_class :=
| JSONDecodeError | UnicodeDecodeError | TypeError | KeyError | NameError
| PermissionError | RequestException.

Record exn := Exn { cls : exn_class; message : str }.

Inductive result (A : Type) :=
| Ok (a : A)
| Raises (e : exn).
Arguments Ok {A} a.
Arguments Raises {A} e.

Definition is_JSONDecodeError (e : exn) : bool :=
  match cls e with JSONDecodeError => true | _ => false end.

(** ** Widgets *)

(** A [MessageBox]: the text of its label and the two flags given to
    [__init__] (any value may be passed; the code passes booleans, the
    history file may hold anything). *)
Record MessageBox := { label : str; is_user : json; is_code : json }.

(** [MessageBox(text, is_user, self)], [is_code] defaulting to [False]. *)
Definition new_box (text : str) (user : bool) : MessageBox :=
  {| label := text; is_user := JBool user; is_code := JBool false |}.

(** The children of [messages_box], oldest first.  Python compares widgets
    by identity: every box carries the number it was created with. *)
Definition children := list (nat * MessageBox).

(** [messages_box.remove(box)]; nothing changes when [box] is not a child. *)
Definition remove_box (id : nat) (boxes : children) : children :=
  List.filter (fun b => negb (Nat.eqb b.1 id)) boxes.

(** [box.label.set_text(text)]; a box that was removed is no longer shown. *)
Definition set_text (id : nat) (text : str) (boxes : children) : children :=
  map (fun b => if Nat.eqb b.1 id
                then (b.1, {| label := text; is_user := is_user b.2; is_code := is_code b.2 |})
                else b) boxes.

Definition find_box (id : nat) (boxes : children) : option MessageBox :=
  snd <$> List.find (fun b => Nat.eqb b.1 id) boxes.

(** ** The history file [/tmp/MAGI/chat_history.json] *)

Inductive file :=
| Absent            (* [open] raises [FileNotFoundError] *)
| Unreadable        (* the path exists and [open] raises [PermissionError] *)
| Garbage           (* [json.load] raises [JSONDecodeError] *)
| Document (j : json).   (* [json.load] returns [j] *)

(** ** The worker thread and the closures it posts *)

(** One idle callback.  [update], [split_and_create_boxes] and the second
    error lambda are closures over locals of one call of [send_to_ollama];
    they read those variables when they run, not when they are posted. *)
Inductive closure :=
| scroll                                   (* [_scroll] of [scroll_to_bottom] *)
| update (sid : nat)                       (* line 290 *)
| split_and_create_boxes (sid : nat)       (* line 299 *)
| report_status (sid : nat) (status_code : Z)   (* the lambda of line 317 *)
| report_exception (sid : nat).            (* the lambda of line 320, closed over [e] *)

(** Where a thread stands in [send_to_ollama]. *)
Inductive pc :=
| Created       (* started by [on_send], nothing executed yet *)
| Requesting    (* the live box is appended, [requests.post] is outstanding *)
| Reading       (* [response.ok]; waiting for the next item of [iter_lines] *)
| Appended      (* [full_response += text] done, [idle_add(update)] comes next *)
| Handling      (* inside [except Exception as e], the lambda is posted *)
| Exited.       (* the function has returned *)

(** The locals of one call of [send_to_ollama] that its closures share.
    [e] is bound only inside the [except] clause: Python deletes the name
    when the clause ends. *)
Record session := {
  prompt : str;
  live_box : option nat;
  full_response : str;
  e : option exn;
  at_ : pc
}.

(** What the network does for a thread. *)
Inductive line :=
| Blank                      (* [b''], skipped by [if line] *)
| LoadsRaises (ex : exn)     (* [json.loads(line)] raises [ex] *)
| Loads (chunk : json).      (* [json.loads(line)] returns [chunk] *)

Inductive post_result :=
| PostRaises (ex : exn)
| PostReturns (status_code : Z).

Inductive stream_event :=
| Line (l : line)
| EndOfStream
| StreamRaises (ex : exn).

(** [response.ok]: no status from 400 to 599. *)
Definition ok (status_code : Z) : bool :=
  negb ((400 <=? status_code)%Z && (status_code <? 600)%Z).

(** Lines 286-288 on a decoded chunk: the text to append, nothing when
    ['response' in chunk] is false, or the [TypeError] one of the three
    operations raises. *)
Definition chunk_text (chunk : json) : result (option str) :=
  match chunk with
  | JObj fields =>
      match lookup_key (lit "response") fields with
      | None => Ok None
      | Some (JStr text) => Ok (Some text)
      | Some v =>
          Raises (Exn TypeError
            (lit "can only concatenate str (not " ++ [34%N] ++ type_name v
               ++ [34%N] ++ lit ") to str"))
      end
  | JArr items =>
      if existsb (is_str (lit "response")) items
      then Raises (Exn TypeError (lit "list indices must be integers or slices, not str"))
      else Ok None
  | JStr s =>
      if contains (lit "response") s
      then Raises (Exn TypeError (lit "string indices must be integers"))
      else Ok None
  | v =>
      Raises (Exn TypeError
        (lit "argument of type '" ++ type_name v ++ lit "' is not iterable"))
  end.

(** ** The program state *)

(** A callback the main loop has run: the text [update] put on the live
    label, the text [split_and_create_boxes] split, the text an error lambda
    gave to [add_message].  The program keeps no such list; the state
    carries it as a history to state what the callbacks were given. *)
Inductive call :=
| OnChunk (sid : nat) (text : str)
| OnDone (sid : nat) (text : str)
| OnError (sid : nat) (text : str).

Record state := {
  messages_box : children;
  fresh : nat;               (* the number of the next widget *)
  entry : str;               (* the text of the input entry *)
  disk : file;
  idle : list closure;       (* GLib's idle sources, oldest first *)
  threads : list session;    (* the threads started so far, oldest first *)
  calls : list call
}.

Definition with_messages (f : children -> children) (st : state) : state :=
  {| messages_box := f (messages_box st); fresh := fresh st; entry := entry st;
     disk := disk st; idle := idle st; threads := threads st; calls := calls st |}.

Definition with_entry (text : str) (st : state) : state :=
  {| messages_box := messages_box st; fresh := fresh st; entry := text;
     disk := disk st; idle := idle st; threads := threads st; calls := calls st |}.

Definition with_disk (d : file) (st : state) : state :=
  {| messages_box := messages_box st; fresh := fresh st; entry := entry st;
     disk := d; idle := idle st; threads := threads st; calls := calls st |}.

Definition with_idle (q : list closure) (st : state) : state :=
  {| messages_box := messages_box st; fresh := fresh st; entry := entry st;
     disk := disk st; idle := q; threads := threads st; calls := calls st |}.

Definition with_threads (ts : list session) (st : state) : state :=
  {| messages_box := messages_box st; fresh := fresh st; entry := entry st;
     disk := disk st; idle := idle st; threads := ts; calls := calls st |}.

Definition record (c : call) (st : state) : state :=
  {| messages_box := messages_box st; fresh := fresh st; entry := entry st;
     disk := disk st; idle := idle st; threads := threads st;
     calls := calls st ++ [c] |}.

(** [GLib.idle_add(c)] *)
Definition idle_add (c : closure) (st : state) : state :=
  with_idle (idle st ++ [c]) st.

(** [self.scroll_to_bottom()] *)
Definition scroll_to_bottom (st : state) : state := idle_add scroll st.

(** Creating a box and appending it to [messages_box]. *)
Definition append_box (box : MessageBox) (st : state) : state :=
  {| messages_box := messages_box st ++ [(fresh st, box)]; fresh := S (fresh st);
     entry := entry st; disk := disk st; idle := idle st; threads := threads st;
     calls := calls st |}.

(** ** The history file: [save_history] and [load_history] *)

(** The list [save_history] builds: one dict per child, in order. *)
Definition history_entry (box : MessageBox) : json :=
  JObj [(lit "text", JStr (label box));
        (lit "is_user", is_user box);
        (lit "is_code", is_code box)].

Definition history (boxes : children) : json :=
  JArr (map (fun b => history_entry b.2) boxes).

(** [save_history]: the whole file is overwritten; the exception of a
    failed [open] leaves the caller. *)
Definition save_history (st : state) : state * option exn :=
  match disk st with
  | Unreadable => (st, Some (Exn PermissionError (lit "Permission denied")))
  | _ => (with_disk (Document (history (messages_box st))) st, None)
  end.

(** [msg[key]] *)
Definition subscript (msg : json) (key : str) : result json :=
  match msg with
  | JObj fields =>
      match lookup_key key fields with
      | Some v => Ok v
      | None => Raises (Exn KeyError (lit "'" ++ key ++ lit "'"))
      end
  | JArr _ => Raises (Exn TypeError (lit "list indices must be integers or slices, not str"))
  | JStr _ => Raises (Exn TypeError (lit "string indices must be integers"))
  | v => Raises (Exn TypeError (lit "'" ++ type_name v ++ lit "' object is not subscriptable"))
  end.

(** [msg.get(key, False)], reached only for a dict. *)
Definition get_or_False (msg : json) (key : str) : json :=
  match msg with
  | JObj fields => default (JBool false) (lookup_key key fields)
  | _ => JBool false
  end.

(** The box [load_history] builds from one element of the file.  The label
    of a [Gtk.Label] is a string or [None]; [None] gives the empty text, and
    [GLib.markup_escape_text], called for a code box, does not take it.  The
    text is taken to be one a label holds as given (see [gtk_text] below):
    PyGObject cuts a text at a NUL and cannot encode a lone surrogate. *)
Definition box_of_entry (msg : json) : result MessageBox :=
  match subscript msg (lit "text") with
  | Raises ex => Raises ex
  | Ok text =>
      match subscript msg (lit "is_user") with
      | Raises ex => Raises ex
      | Ok user =>
          let code := get_or_False msg (lit "is_code") in
          match text with
          | JStr s => Ok {| label := s; is_user := user; is_code := code |}
          | JNull =>
              if truth code
              then Raises (Exn TypeError (lit "Argument 0 does not allow None as a value"))
              else Ok {| label := []; is_user := user; is_code := code |}
          | v => Raises (Exn TypeError (lit "Must be string, not " ++ type_name v))
          end
      end
  end.

(** [for msg in history]: the elements of a list, the keys of a dict, the
    characters of a string. *)
Definition iterate (v : json) : result (list json) :=
  match v with
  | JArr items => Ok items
  | JObj fields => Ok (map (fun kv => JStr kv.1) fields)
  | JStr s => Ok (map (fun c => JStr [c]) s)
  | v => Raises (Exn TypeError (lit "'" ++ type_name v ++ lit "' object is not iterable"))
  end.

(** The loop of [load_history]; the boxes appended before an exception stay. *)
Fixpoint load_boxes (msgs : list json) (st : state) : state * option exn :=
  match msgs with
  | [] => (st, None)
  | msg :: rest =>
      match box_of_entry msg with
      | Ok box => load_boxes rest (append_box box st)
      | Raises ex => (st, Some ex)
      end
  end.

(** [load_history]: [FileNotFoundError] is the one exception it handles. *)
Definition load_history (st : state) : state * option exn :=
  match disk st with
  | Absent => (st, None)
  | Unreadable => (st, Some (Exn PermissionError (lit "Permission denied")))
  | Garbage => (st, Some (Exn JSONDecodeError (lit "Expecting value")))
  | Document j =>
      match iterate j with
      | Raises ex => (st, Some ex)
      | Ok msgs =>
          match load_boxes msgs st with
          | (st', None) => (scroll_to_bottom st', None)
          | (st', Some ex) => (st', Some ex)
          end
      end
  end.

(** A window that has just been built, before [load_history]. *)
Definition blank (d : file) : state :=
  {| messages_box := []; fresh := 0; entry := []; disk := d;
     idle := []; threads := []; calls := [] |}.

(** ** The handlers of the main thread *)

(** [add_message(text, is_user)] *)
Definition add_message (text : str) (user : bool) (st : state) : state * option exn :=
  let st := scroll_to_bottom (append_box (new_box text user) st) in
  if user then save_history st else (st, None).

(** [threading.Thread(target=self.send_to_ollama, args=(text,)).start()] *)
Definition start_thread (text : str) (st : state) : state :=
  with_threads (threads st ++
    [{| prompt := text; live_box := None; full_response := [];
        e := None; at_ := Created |}]) st.

(** [on_send]; an exception of [save_history] ends the handler where it is
    raised. *)
Definition on_send (st : state) : state :=
  let text := strip (entry st) in
  if truthy text then
    match add_message text true st with
    | (st, Some _) => st
    | (st, None) => start_thread text (with_entry [] st)
    end
  else st.

(** [on_delete_clicked] of the box [id]; the button exists on boxes that are
    not code, and [get_parent()] is [None] once the box is removed. *)
Definition on_delete_clicked (id : nat) (st : state) : state :=
  match find_box id (messages_box st) with
  | Some box =>
      if truth (is_code box) then st
      else fst (save_history (with_messages (remove_box id) st))
  | None => st
  end.

(** The boxes of [split_and_create_boxes]: assistant boxes with the flag of
    the loop. *)
Definition segment_box (seg : str * bool) : MessageBox :=
  {| label := seg.1; is_user := JBool false; is_code := JBool seg.2 |}.

Definition append_boxes (boxes : list MessageBox) (st : state) : state :=
  fold_left (fun st box => append_box box st) boxes st.

(** An operation on the live box of a thread. *)
Definition on_live (f : nat -> children -> children) (s : session)
    (boxes : children) : children :=
  match live_box s with
  | Some id => f id boxes
  | None => boxes
  end.

(** The text an error lambda formats when it runs: the status code of the
    response, or [str(e)] when [e] is still bound (a [NameError] otherwise,
    and [add_message] is not called). *)
Definition error_text (c : closure) (st : state) : option str :=
  match c with
  | report_status _ status_code =>
      Some (lit "Error: HTTP " ++ str_of_int status_code)
  | report_exception sid =>
      match threads st !! sid with
      | Some s =>
          match e s with
          | Some ex => Some (lit "Error: " ++ message ex)
          | None => None
          end
      | None => None
      end
  | _ => None
  end.

Definition closure_sid (c : closure) : option nat :=
  match c with
  | scroll => None
  | update sid | split_and_create_boxes sid
  | report_status sid _ | report_exception sid => Some sid
  end.

(** One idle callback run by the main loop.  A closure of a thread reads the
    thread's variables as they are now. *)
Definition run_closure (c : closure) (st : state) : state :=
  match c with
  | scroll => st
  | update sid =>
      match threads st !! sid with
      | Some s =>
          let st := with_messages (on_live (fun id => set_text id (full_response s)) s) st in
          record (OnChunk sid (full_response s)) (scroll_to_bottom st)
      | None => st
      end
  | split_and_create_boxes sid =>
      match threads st !! sid with
      | Some s =>
          let st := with_messages (on_live remove_box s) st in
          let st := append_boxes (map segment_box (split_segments (full_response s))) st in
          let st := scroll_to_bottom st in
          record (OnDone sid (full_response s)) (fst (save_history st))
      | None => st
      end
  | report_status sid _ | report_exception sid =>
      match error_text c st with
      | Some text => record (OnError sid text) (fst (add_message text false st))
      | None => st
      end
  end.

(** The main loop takes the oldest idle source, runs it and drops it. *)
Definition dispatch (st : state) : state :=
  match idle st with
  | [] => st
  | c :: q => run_closure c (with_idle q st)
  end.

(** ** The steps of a worker thread: [send_to_ollama] *)

Definition set_session (sid : nat) (s : session) (st : state) : state :=
  with_threads (<[sid := s]> (threads st)) st.

Definition goto (p : pc) (s : session) : session :=
  {| prompt := prompt s; live_box := live_box s; full_response := full_response s;
     e := e s; at_ := p |}.

(** Lines 270-272, run by the thread itself. *)
Definition enter (sid : nat) (s : session) (st : state) : state :=
  let id := fresh st in
  let st := scroll_to_bottom (append_box (new_box (lit "...") false) st) in
  set_session sid
    {| prompt := prompt s; live_box := Some id; full_response := [];
       e := None; at_ := Requesting |} st.

(** [except Exception as e]: bind [e], post the lambda. *)
Definition handle (sid : nat) (s : session) (ex : exn) (st : state) : state :=
  idle_add (report_exception sid)
    (set_session sid
       {| prompt := prompt s; live_box := live_box s;
          full_response := full_response s; e := Some ex; at_ := Handling |} st).

(** The end of the [except] clause deletes [e]. *)
Definition leave (sid : nat) (s : session) (st : state) : state :=
  set_session sid
    {| prompt := prompt s; live_box := live_box s;
       full_response := full_response s; e := None; at_ := Exited |} st.

(** [requests.post] returns or raises. *)
Definition answer (sid : nat) (s : session) (r : post_result) (st : state) : state :=
  match r with
  | PostRaises ex => handle sid s ex st
  | PostReturns status_code =>
      if ok status_code then set_session sid (goto Reading s) st
      else idle_add (report_status sid status_code) (set_session sid (goto Exited s) st)
  end.

(** One turn of [for line in response.iter_lines()], or its end. *)
Definition receive (sid : nat) (s : session) (ev : stream_event) (st : state) : state :=
  match ev with
  | Line Blank => st
  | Line (LoadsRaises ex) =>
      if is_JSONDecodeError ex then st else handle sid s ex st
  | Line (Loads chunk) =>
      match chunk_text chunk with
      | Ok None => st
      | Ok (Some text) =>
          set_session sid
            {| prompt := prompt s; live_box := live_box s;
               full_response := full_response s ++ text; e := e s;
               at_ := Appended |} st
      | Raises ex => handle sid s ex st
      end
  | EndOfStream =>
      idle_add (split_and_create_boxes sid) (set_session sid (goto Exited s) st)
  | StreamRaises ex => handle sid s ex st
  end.

(** [GLib.idle_add(update)] after an append. *)
Definition post_update (sid : nat) (s : session) (st : state) : state :=
  idle_add (update sid) (set_session sid (goto Reading s) st).

(** ** Runs *)

Inductive action :=
| Type_ (text : str)                       (* the user edits the entry *)
| Send                                     (* Enter or the Send button *)
| Delete (id : nat)                        (* the delete button of a box *)
| Dispatch                                 (* the main loop runs an idle source *)
| Enter (sid : nat)                        (* a thread runs lines 270-272 *)
| Answer (sid : nat) (r : post_result)     (* [requests.post] comes back *)
| Receive (sid : nat) (ev : stream_event)  (* [iter_lines] yields, ends or raises *)
| PostUpdate (sid : nat)                   (* a thread runs line 293 *)
| Leave (sid : nat).                       (* a thread leaves the [except] clause *)

(** A step of a thread happens only where the thread stands. *)
Definition worker (sid : nat) (a : action) (st : state) : state :=
  match threads st !! sid with
  | None => st
  | Some s =>
      match a, at_ s with
      | Enter _, Created => enter sid s st
      | Answer _ r, Requesting => answer sid s r st
      | Receive _ ev, Reading => receive sid s ev st
      | PostUpdate _, Appended => post_update sid s st
      | Leave _, Handling => leave sid s st
      | _, _ => st
      end
  end.

Definition step (a : action) (st : state) : state :=
  match a with
  | Type_ text => with_entry text st
  | Send => on_send st
  | Delete id => on_delete_clicked id st
  | Dispatch => dispatch st
  | Enter sid | Answer sid _ | Receive sid _ | PostUpdate sid | Leave sid =>
      worker sid a st
  end.

Definition run (acts : list action) (st : state) : state :=
  fold_left (fun st a => step a st) acts st.

(** The states the program can be in: the window was built over some
    history file, [load_history] returned, and things happened. *)
Definition started (d : file) : option state :=
  match load_history (blank d) with
  | (st, None) => Some st
  | (_, Some _) => None
  end.

Definition reachable (st : state) : Prop :=
  exists d st0 acts, started d = Some st0 /\ run acts st0 = st.

(** The threads that have not left [send_to_ollama]. *)
Definition is_live (s : session) : bool :=
  match at_ s with Exited => false | _ => true end.

Definition live_sessions (st : state) : nat :=
  length (List.filter is_live (threads st)).

(** ** The splitter as the specification words it

    The role of a piece is given by its position among the pieces of the
    split: even positions are prose, odd positions are code; a piece that is
    empty after stripping gives no segment and still counts as a position. *)

Fixpoint boxes_by_position (is_code : bool) (parts : list str) : list (str * bool) :=
  match parts with
  | [] => []
  | part :: rest =>
      (if truthy (strip part) then [(strip part, is_code)] else [])
        ++ boxes_by_position (negb is_code) rest
  end.

Definition split_by_position (full_text : str) : list (str * bool) :=
  boxes_by_position false (split fence full_text).

(** ** Reading the callback history *)

(** The texts [update] has put on the live label of thread [sid]. *)
Fixpoint chunk_texts (sid : nat) (tr : list call) : list str :=
  match tr with
  | [] => []
  | OnChunk sid' text :: tr' =>
      if Nat.eqb sid' sid then text :: chunk_texts sid tr' else chunk_texts sid tr'
  | _ :: tr' => chunk_texts sid tr'
  end.

(** Each text begins with the one before it. *)
Fixpoint ascending (texts : list str) : Prop :=
  match texts with
  | [] => True
  | a :: rest =>
      match rest with [] => True | b :: _ => a `prefix_of` b end /\ ascending rest
  end.

(** ** Error inputs of a thread

    The inputs on which [send_to_ollama] takes an error path, with the
    lambda it then posts: a status for which [response.ok] is false, and
    the exceptions that reach [except Exception]. *)
Definition stream_error (sid : nat) (a : action) (s : session) : option closure :=
  match a, at_ s with
  | Answer sid' (PostReturns status_code), Requesting =>
      if Nat.eqb sid' sid && negb (ok status_code)
      then Some (report_status sid status_code) else None
  | Answer sid' (PostRaises _), Requesting
  | Receive sid' (StreamRaises _), Reading =>
      if Nat.eqb sid' sid then Some (report_exception sid) else None
  | Receive sid' (Line (LoadsRaises ex)), Reading =>
      if Nat.eqb sid' sid && negb (is_JSONDecodeError ex)
      then Some (report_exception sid) else None
  | Receive sid' (Line (Loads chunk)), Reading =>
      match chunk_text chunk with
      | Raises _ => if Nat.eqb sid' sid then Some (report_exception sid) else None
      | Ok _ => None
      end
  | _, _ => None
  end.

(** ** The format of the history file *)








(** ** The invariant of a thread, the idle queue and the history

    [p] and [cell] are where thread [sid] stands and its [full_response];
    a thread that does not exist yet counts as [Created] with no text. *)

Definition pc_at (st : state) (sid : nat) : pc :=
  default Created (at_ <$> threads st !! sid).

Definition cell_at (st : state) (sid : nat) : str :=
  default [] (full_response <$> threads st !! sid).




(** The flag of the loop over the boxes it creates: it starts as given and
    alternates. *)
Fixpoint roles (is_code : bool) (n : nat) : list bool :=
  match n with
  | O => []
  | S k => is_code :: roles (negb is_code) k
  end.

(** ** Sample runs *)

(** A line of the stream with a piece of text, as the backend sends it. *)
Definition chunk (text : str) : stream_event :=
  Line (Loads (JObj [(lit "response", JStr text); (lit "done", JBool false)])).




(** The user has typed blanks. *)
Definition typed_blanks : state := with_entry (lit "  ") (blank Absent).

(** The user has sent [hi]; the thread has not run yet. *)
Definition submitted : state := run [Type_ (lit "hi"); Send] (blank Absent).

(** One thread is started, and the user has typed again. *)
Definition typed_again : state :=
  run [Type_ (lit "one"); Send; Type_ (lit "two")] (blank Absent).

Definition two_submits : list action :=
  [Type_ (lit "one"); Send; Type_ (lit "two"); Send].

(** The thread has put up the live box and waits for [requests.post]. *)
Definition waiting : state := run [Enter 0] submitted.

(** The answer is 200 and a first chunk is in; its update is queued. *)
Definition reading : state :=
  run [Answer 0 (PostReturns 200); Receive 0 (chunk (lit "a")); PostUpdate 0] waiting.


(** The same reply with the main loop keeping up with the thread. *)
Definition shown : state :=
  run [Dispatch; Dispatch; Dispatch;
       Receive 0 (chunk (lit "b")); PostUpdate 0; Dispatch; Dispatch;
       Receive 0 EndOfStream; Dispatch; Dispatch] reading.

(** The reply is two blanks; the split is queued behind the update. *)
Definition blank_reply : state :=
  run [Answer 0 (PostReturns 200); Receive 0 (chunk (lit "  ")); PostUpdate 0;
       Receive 0 EndOfStream] waiting.

(** The backend answers with status 500; [queued_500] has the error lambda
    at the head of the queue, [after_500] has run everything. *)
Definition answered_500 : state := step (Answer 0 (PostReturns 500)) waiting.
Definition queued_500 : state := run [Dispatch; Dispatch] answered_500.
Definition after_500 : state := run [Dispatch; Dispatch] queued_500.

(** [requests.post] cannot connect. *)
Definition refused : post_result :=
  PostRaises (Exn RequestException (lit "Connection refused")).

(** ** Widget numbers

    Every child of [messages_box] has a number below [fresh], no two
    children share one, and the live box of a thread is an assistant box
    that is not code. *)

Definition widgets_ok (boxes : children) (n : nat) (ts : list session) : Prop :=
  Forall (fun b => b.1 < n) boxes
  /\ List.NoDup (map fst boxes)
  /\ (forall sid s id,
        ts !! sid = Some s -> live_box s = Some id ->
        id < n /\ forall box, In (id, box) boxes -> is_code box = JBool false).

Definition widgets_inv (st : state) : Prop :=
  widgets_ok (messages_box st) (fresh st) (threads st).

(** [label.set_text(text)] on one box. *)
Definition relabel (text : str) (box : MessageBox) : MessageBox :=
  {| label := text; is_user := is_user box; is_code := is_code box |}.

(** A file [load_history] returns from without an exception. *)
Definition loadable (d : file) : Prop := exists st', started d = Some st'.

(** ** The last callback of a thread

    The closures with which [send_to_ollama] ends (the split and the two
    error lambdas), and the callbacks they make. *)

Definition is_terminal (sid : nat) (c : closure) : bool :=
  match c with
  | split_and_create_boxes sid' | report_status sid' _ | report_exception sid' =>
      Nat.eqb sid' sid
  | scroll | update _ => false
  end.

Definition is_final (sid : nat) (c : call) : bool :=
  match c with
  | OnDone sid' _ | OnError sid' _ => Nat.eqb sid' sid
  | OnChunk _ _ => false
  end.

Definition terminals (sid : nat) (q : list closure) : list closure :=
  List.filter (is_terminal sid) q.

Definition finals (sid : nat) (tr : list call) : list call :=
  List.filter (is_final sid) tr.

Record ending (sid : nat) (p : pc) (q : list closure) (tr : list call) : Prop := {
  (* a thread that is still at work has posted no terminal closure *)
  end_working :
    p <> Handling -> p <> Exited -> terminals sid q = [] /\ finals sid tr = [];
  (* one terminal closure at most, queued or run *)
  end_once : length (terminals sid q) + length (finals sid tr) <= 1;
  (* no update is queued behind a terminal closure *)
  end_order :
    forall q1 c q2, q = q1 ++ c :: q2 -> is_terminal sid c = true ->
    ~ In (update sid) q2;
  (* once the final callback is made no update is left *)
  end_drained : finals sid tr <> [] -> ~ In (update sid) q;
  (* no update ran after the final callback *)
  end_last :
    forall pre c post, tr = pre ++ c :: post -> is_final sid c = true ->
    chunk_texts sid post = []
}.

Definition ending_view (st : state) (sid : nat) : Prop :=
  ending sid (pc_at st sid) (idle st) (calls st).

(** ** The buttons of a box: [MessageBox.__init__] *)

Inductive button := copy_btn | run_btn | edit_btn | read_btn | delete_btn.

(** [s.startswith((p1, p2, ...))] *)
Definition startswith_any (prefixes : list str) (s : str) : bool :=
  existsb (fun p => startswith p s) prefixes.

(** The children of [button_box], in the order they are appended. *)
Definition buttons (text : str) (user code : json) : list button :=
  (if truth code then
     copy_btn ::
     (if negb (startswith_any [lit "import "; lit "def "; lit "class "] (strip text))
      then [run_btn] else [])
   else if truth user then [edit_btn]
   else [read_btn; copy_btn])
  ++ (if negb (truth code) then [delete_btn] else []).

(** ** Window placement: [setup_position] *)

Module Gdk.
Record Rectangle := { x : Z; y : Z; width : Z; height : Z }.
End Gdk.

(** The position handed to [move_and_show_window]; nothing is posted when
    the display has no primary monitor. *)
Definition setup_position (monitor : option Gdk.Rectangle)
    (window_width window_height : Z) : option (Z * Z) :=
  match monitor with
  | Some geometry =>
      let x := (Gdk.x geometry + (Gdk.width geometry - window_width) / 2)%Z in
      let y := (Gdk.y geometry + Gdk.height geometry - window_height)%Z in
      Some (x, y)
  | None => None
  end.

(** ** The progress file of whisper_server.py *)

Module Whisper.

(** The text of [/tmp/MAGI/whisper_progress]; [None] when there is no file. *)
Definition progress_file := option str.

(** What [update_progress] can raise once the file is open: [str] of an
    [int] of more than 4300 digits (the default limit of the conversion)
    raises [ValueError], and [f.write] raises [UnicodeEncodeError] for a text
    the encoding of the file cannot hold. *)
Inductive write_error := ValueError | UnicodeEncodeError.

Definition max_str_digits : Z := 4300.

Definition too_long (n : Z) : bool := (10 ^ max_str_digits <=? Z.abs n)%Z.
Arguments too_long : simpl never.

(** UTF-8, the encoding of a file under a UTF-8 locale: every code point
    but the surrogates. *)
Definition utf8 (s : str) : bool :=
  forallb (fun c => negb ((55296 <=? c) && (c <=? 57343))%N && (c <=? 1114111)%N) s.

Section Writing.

(** The texts the encoding of the file can hold (the locale's encoding);
    what is written in it is read back as it was. *)
Variable encodable : str -> bool.

(** [update_progress(message, percentage)] for an [int] percentage, the
    directory and the file being writable: the file after the call, and the
    exception that leaves the function.  [open(..., 'w')] empties the file
    before the text is formatted and written, so an exception leaves it
    empty (on Linux, where the server keeps the file under [/tmp], writing
    changes no line end). *)
Definition update_progress (message : str) (percentage : Z)
    : progress_file * option write_error :=
  if too_long percentage then (Some [], Some ValueError)
  else
    let text := str_of_int percentage ++ lit "|" ++ message in
    if encodable text then (Some text, None)
    else (Some [], Some UnicodeEncodeError).

End Writing.

(** Reading a file opened in text mode: [\r\n] and [\r] arrive as [\n]. *)
Fixpoint universal_newlines (s : str) : str :=
  match s with
  | [] => []
  | c :: r =>
      if (c =? 13)%N
      then 10%N :: match r with
                   | c' :: r' => if (c' =? 10)%N then universal_newlines r'
                                 else universal_newlines r
                   | [] => []
                   end
      else c :: universal_newlines r
  end.

(** [s.split(sep, 1)] for a separator of one character: the text before the
    first [sep] and the text behind it, or [s] alone.  [cur] is the current
    piece, reversed. *)
Fixpoint split_once_from (sep : char) (cur : str) (s : str) : list str :=
  match s with
  | [] => [rev cur]
  | c :: s' =>
      if (c =? sep)%N then [rev cur; s']
      else split_once_from sep (c :: cur) s'
  end.

Definition split_once (sep : char) (s : str) : list str :=
  split_once_from sep [] s.

Definition bar : char := 124%N.

(** The characters of [str(n)]: the ten digits and the minus sign. *)
Definition is_numeral (c : char) : bool :=
  ((48 <=? c) && (c <=? 57) || (c =? 45))%N.

Section Status.

(** [int(s)]: the number, or the text of the [ValueError]. *)
Variable int_ : str -> Z + str.

(** [status()]: the two fields of the JSON answer.  Every exception ends in
    the percentage [-1]. *)
Definition status (f : progress_file) : Z * str :=
  match f with
  | None =>
      (-1, lit "Error reading status: [Errno 2] No such file or directory: '/tmp/MAGI/whisper_progress'")%Z
  | Some content =>
      let progress := strip (universal_newlines content) in
      match split_once bar progress with
      | [percentage; message] =>
          match int_ percentage with
          | inl n => (n, message)
          | inr text => (-1, lit "Error reading status: " ++ text)%Z
          end
      | _ =>
          (-1, lit "Error reading status: not enough values to unpack (expected 2, got 1)")%Z
      end
  end.

End Status.

(** A reader of the decimal numerals [str] writes, for ASCII text. *)
Definition ascii_of_char (c : char) : option ascii :=
  if (c <? 256)%N then Some (ascii_of_N c) else None.

Fixpoint string_of_str (s : str) : option string :=
  match s with
  | [] => Some EmptyString
  | c :: r =>
      match ascii_of_char c, string_of_str r with
      | Some a, Some t => Some (String a t)
      | _, _ => None
      end
  end.

Definition decimal (s : str) : Z + str :=
  match string_of_str s with
  | Some t =>
      match NilZero.int_of_string t with
      | Some d => inl (Z.of_int d)
      | None => inr (lit "invalid literal for int() with base 10")
      end
  | None => inr (lit "invalid literal for int() with base 10")
  end.

End Whisper.

(** ** More sample runs *)

(** The two scrolls have run: the update of the first chunk is at the head
    of the queue. *)
Definition update_queued : state := run [Dispatch; Dispatch] reading.

(** The stream has ended after the first chunk, and the split is at the
    head of the queue. *)
Definition split_queued : state :=
  run [Receive 0 EndOfStream; Dispatch; Dispatch; Dispatch] reading.

(** A history with one code box, and the window that has loaded it. *)
Definition code_entry : json :=
  JObj [(lit "text", JStr (lit "ls")); (lit "is_user", JBool false);
        (lit "is_code", JBool true)].

Definition code_box : MessageBox :=
  {| label := lit "ls"; is_user := JBool false; is_code := JBool true |}.

Definition code_history : file := Document (JArr [code_entry]).

Definition loaded_code : state := (load_history (blank code_history)).1.

(** A history whose second element is the number 5. *)
Definition broken_history : file :=
  Document (JArr [code_entry; JNum 5; code_entry]).





(** A monitor of 1920 by 1080 pixels at the origin. *)
Definition full_hd : Gdk.Rectangle :=
  {| Gdk.x := 0; Gdk.y := 0; Gdk.width := 1920; Gdk.height := 1080 |}.

(** ** The variable [e] of a thread

    [e] is bound exactly while the thread is inside its [except] clause. *)
Definition e_bound (s : session) : Prop :=
  match at_ s with
  | Handling => e s <> None
  | _ => e s = None
  end.

(** [requests.post] could not connect, and the main loop has run the two
    scrolls: the error lambda is at the head of the queue, the thread still
    inside its [except] clause. *)
Definition refused_queued : state :=
  run [Answer 0 refused; Dispatch; Dispatch] waiting.

(** The same, the thread having left the clause before the main loop got
    to the lambda. *)
Definition refused_left : state :=
  run [Answer 0 refused; Leave 0; Dispatch; Dispatch] waiting.

(** * Properties *)

(** ** Strings *)

Section Strings.

Lemma eqb_eq (a b : str) : Py.eqb a b = true <-> a = b.
Proof.
  revert b. induction a as [|x a IH]; intros [|y b]; simpl; try easy.
  rewrite andb_true_iff, N.eqb_eq, IH. split.
  - intros [-> ->]. reflexivity.
  - intros [= -> ->]. auto.
Qed.

Lemma lstrip_blank (s : str) : forallb isspace s = true -> lstrip s = [].
Proof.
  induction s as [|c s IH]; simpl; [reflexivity|].
  intros [Hc Hs]%andb_true_iff. rewrite Hc. auto.
Qed.

Lemma strip_blank (s : str) : forallb isspace s = true -> strip s = [].
Proof. intros H. unfold strip. rewrite lstrip_blank by assumption. reflexivity. Qed.

Lemma lstrip_nil_blank (s : str) : lstrip s = [] -> forallb isspace s = true.
Proof.
  induction s as [|c s IH]; simpl; [reflexivity|].
  destruct (isspace c); [auto | discriminate].
Qed.

(** What [strip] leaves is empty exactly for the strings of whitespace. *)
Lemma strip_nil_iff (s : str) : strip s = [] <-> forallb isspace s = true.
Proof.
  split; [|apply strip_blank].
  unfold strip, rstrip. intros H.
  apply lstrip_nil_blank.
  assert (Hr : lstrip (rev (lstrip s)) = []).
  { rewrite <- (rev_involutive (lstrip (rev (lstrip s)))). rewrite H. reflexivity. }
  apply lstrip_nil_blank in Hr.
  rewrite forallb_forall in Hr.
  destruct (lstrip s) as [|c r] eqn:E; [reflexivity|].
  exfalso.
  assert (Hc : isspace c = true).
  { apply Hr. rewrite <- in_rev. left. reflexivity. }
  clear Hr H. induction s as [|x s IH]; simpl in E; [discriminate|].
  destruct (isspace x) eqn:Hx; [auto|].
  injection E as -> _. congruence.
Qed.

Lemma startswith_cons (a c : char) (p s : str) :
  startswith (a :: p) (c :: s) = (a =? c)%N && startswith p s.
Proof. reflexivity. Qed.

Lemma split_from_cons (sep cur s : str) (c : char) :
  split_from sep 0 cur (c :: s) =
    if startswith sep (c :: s)
    then rev cur :: split_from sep (length sep - 1) [] s
    else split_from sep 0 (c :: cur) s.
Proof. reflexivity. Qed.

(** A fence does not start with whitespace. *)
Lemma fence_not_blank (c : char) (s : str) :
  isspace c = true -> startswith fence (c :: s) = false.
Proof.
  intros Hc. unfold fence. rewrite startswith_cons.
  destruct (96 =? c)%N eqn:E; [|reflexivity].
  apply N.eqb_eq in E. subst c. discriminate.
Qed.

Lemma split_from_blank (cur s : str) :
  forallb isspace s = true -> split_from fence 0 cur s = [rev cur ++ s].
Proof.
  revert cur. induction s as [|c s IH]; intros cur.
  - intros _. simpl. rewrite app_nil_r. reflexivity.
  - intros H. pose proof H as [Hc Hs]%andb_true_iff.
    rewrite split_from_cons, fence_not_blank by assumption.
    rewrite IH by assumption. simpl. rewrite <- app_assoc. reflexivity.
Qed.

Lemma split_blank (s : str) : forallb isspace s = true -> split fence s = [s].
Proof. intros H. unfold split. rewrite split_from_blank by assumption. reflexivity. Qed.

(** [split] loses nothing: joining the pieces gives the string back. *)

Lemma startswith_app (p s : str) :
  startswith p s = true -> exists r, s = p ++ r.
Proof.
  revert s. induction p as [|a p IH]; intros s H.
  - exists s. reflexivity.
  - destruct s as [|c s]; [discriminate|].
    rewrite startswith_cons in H. apply andb_true_iff in H as [Hc Hs].
    apply N.eqb_eq in Hc. subst c. destruct (IH s Hs) as [r ->].
    exists r. reflexivity.
Qed.

Lemma split_from_skip (sep passed cur s : str) :
  split_from sep (length passed) cur (passed ++ s) = split_from sep 0 cur s.
Proof. induction passed as [|x passed IH]; [reflexivity | exact IH]. Qed.

Lemma split_from_not_nil (sep : str) (skip : nat) (cur s : str) :
  split_from sep skip cur s <> [].
Proof.
  revert skip cur. induction s as [|c s IH]; intros skip cur; [simpl; discriminate|].
  destruct skip as [|k]; [|apply IH].
  rewrite split_from_cons. destruct (startswith _ _); [congruence | apply IH].
Qed.

Lemma join_cons (sep piece : str) (rest : list str) :
  rest <> [] -> join sep (piece :: rest) = piece ++ sep ++ join sep rest.
Proof. destruct rest; [congruence | reflexivity]. Qed.

Lemma join_split_from (sep : str) (n : nat) :
  sep <> [] ->
  forall s cur, length s <= n -> join sep (split_from sep 0 cur s) = rev cur ++ s.
Proof.
  intros Hsep. induction n as [|n IH]; intros s cur Hn.
  - destruct s; [|simpl in Hn; lia]. simpl. rewrite app_nil_r. reflexivity.
  - destruct s as [|c s]; [simpl; rewrite app_nil_r; reflexivity|].
    simpl in Hn. rewrite split_from_cons.
    destruct (startswith _ _) eqn:E.
    + destruct (startswith_app _ _ E) as [r Hr].
      destruct sep as [|a sep']; [congruence|].
      injection Hr as -> ->.
      replace (length (a :: sep') - 1) with (length sep') by (simpl; lia).
      rewrite split_from_skip.
      rewrite join_cons by apply split_from_not_nil.
      rewrite IH by (rewrite length_app in Hn; lia).
      reflexivity.
    + rewrite IH by lia. simpl. rewrite <- app_assoc. reflexivity.
Qed.

Lemma join_split (sep s : str) : sep <> [] -> join sep (split sep s) = s.
Proof. intros H. unfold split. rewrite (join_split_from sep (length s)); auto. Qed.

End Strings.

(** ** The fence splitter *)

Section Splitter.

Lemma split_segments_blank (text : str) :
  forallb isspace text = true -> split_segments text = [].
Proof.
  intros H. unfold split_segments. rewrite split_blank by assumption.
  simpl. rewrite strip_blank by assumption. reflexivity.
Qed.

Lemma create_boxes_roles (is_code : bool) (parts : list str) :
  map snd (create_boxes is_code parts)
  = roles is_code (length (create_boxes is_code parts)).
Proof.
  revert is_code. induction parts as [|part rest IH]; intros is_code; simpl.
  - reflexivity.
  - destruct (truthy (strip part)); simpl; [f_equal|]; apply IH.
Qed.

(** Where no piece is blank the flag is the parity of the position. *)
Lemma create_boxes_by_position (is_code : bool) (parts : list str) :
  forallb (fun part => truthy (strip part)) parts = true ->
  create_boxes is_code parts = boxes_by_position is_code parts.
Proof.
  revert is_code. induction parts as [|part rest IH]; intros is_code; simpl.
  - reflexivity.
  - intros [Hp Hr]%andb_true_iff. rewrite Hp. simpl. f_equal. auto.
Qed.

(** The splits of the design's examples. *)
Example split_prose_code_prose :
  split_segments (lit "a```b```c")
  = [(lit "a", false); (lit "b", true); (lit "c", false)].
Proof. vm_compute. reflexivity. Qed.

Example split_unterminated :
  split_segments (lit "see ```ls -l") = [(lit "see", false); (lit "ls -l", true)].
Proof. vm_compute. reflexivity. Qed.

Example split_four_backticks :
  split fence (lit "a````b```") = [lit "a"; lit "`b"; lit ""].
Proof. vm_compute. reflexivity. Qed.

(** C1.  A reply that opens with a fence: the first piece of the split is
    empty and creates no box, so the flag is not flipped, and the fenced
    text is created as prose.  By position it is piece 1, code. *)
Theorem split_only_code_is_prose :
  split_segments (lit "```only code```") = [(lit "only code", false)]
  /\ split_by_position (lit "```only code```") = [(lit "only code", true)].
Proof. split; vm_compute; reflexivity. Qed.

End Splitter.

(** ** What the handlers change *)

Section Effects.

Lemma save_history_ok (st : state) :
  disk st <> Unreadable ->
  save_history st = (with_disk (Document (history (messages_box st))) st, None).
Proof. unfold save_history. destruct (disk st); congruence. Qed.

Lemma on_send_blank (st : state) : strip (entry st) = [] -> on_send st = st.
Proof. intros H. unfold on_send. rewrite H. reflexivity. Qed.

Lemma on_send_threads (st : state) :
  truthy (strip (entry st)) = true -> disk st <> Unreadable ->
  threads (on_send st)
  = threads st ++ [{| prompt := strip (entry st); live_box := None;
                      full_response := []; e := None; at_ := Created |}].
Proof.
  intros Ht Hd. unfold on_send, add_message. rewrite Ht.
  rewrite save_history_ok by exact Hd. reflexivity.
Qed.

Lemma enter_messages (sid : nat) (s : session) (st : state) :
  messages_box (enter sid s st)
  = messages_box st ++ [(fresh st, new_box (lit "...") false)].
Proof. reflexivity. Qed.

Lemma append_boxes_nil (st : state) : append_boxes [] st = st.
Proof. reflexivity. Qed.

Lemma run_cons (a : action) (acts : list action) (st : state) :
  run (a :: acts) st = run acts (step a st).
Proof. reflexivity. Qed.

Lemma run_app (acts1 acts2 : list action) (st : state) :
  run (acts1 ++ acts2) st = run acts2 (run acts1 st).
Proof. apply fold_left_app. Qed.

Lemma step_enter (sid : nat) (s : session) (st : state) :
  threads st !! sid = Some s -> at_ s = Created ->
  step (Enter sid) st = enter sid s st.
Proof. intros Hs Hat. unfold step, worker. rewrite Hs, Hat. reflexivity. Qed.

Lemma step_answer (sid : nat) (s : session) (r : post_result) (st : state) :
  threads st !! sid = Some s -> at_ s = Requesting ->
  step (Answer sid r) st = answer sid s r st.
Proof. intros Hs Hat. unfold step, worker. rewrite Hs, Hat. reflexivity. Qed.

Lemma step_receive (sid : nat) (s : session) (ev : stream_event) (st : state) :
  threads st !! sid = Some s -> at_ s = Reading ->
  step (Receive sid ev) st = receive sid s ev st.
Proof. intros Hs Hat. unfold step, worker. rewrite Hs, Hat. reflexivity. Qed.

Lemma step_post_update (sid : nat) (s : session) (st : state) :
  threads st !! sid = Some s -> at_ s = Appended ->
  step (PostUpdate sid) st = post_update sid s st.
Proof. intros Hs Hat. unfold step, worker. rewrite Hs, Hat. reflexivity. Qed.

Lemma step_leave (sid : nat) (s : session) (st : state) :
  threads st !! sid = Some s -> at_ s = Handling ->
  step (Leave sid) st = leave sid s st.
Proof. intros Hs Hat. unfold step, worker. rewrite Hs, Hat. reflexivity. Qed.

Lemma reachable_started (d : file) (st : state) :
  started d = Some st -> reachable st.
Proof. intros H. exists d, st, []. split; [exact H | reflexivity]. Qed.

Lemma reachable_run (acts : list action) (st : state) :
  reachable st -> reachable (run acts st).
Proof.
  intros (d & st0 & acts0 & H & <-). exists d, st0, (acts0 ++ acts).
  split; [exact H | apply run_app].
Qed.

Lemma save_history_messages (st : state) :
  messages_box (fst (save_history st)) = messages_box st.
Proof. unfold save_history. destruct (disk st); reflexivity. Qed.

End Effects.

(** ** Submitting *)

(** C10.  A submit whose entry text is empty after [strip] changes
    nothing: no message, no write of the history file, no thread, and the
    entry keeps its text. *)
Theorem blank_submit_is_noop (st : state) :
  strip (entry st) = [] -> step Send st = st.
Proof. intros H. cbn [step]. apply on_send_blank. exact H. Qed.

Lemma blank_submit_is_noop_witness : step Send typed_blanks = typed_blanks.
Proof. apply (blank_submit_is_noop typed_blanks). vm_compute. reflexivity. Defined.

(** C2, as the code has it.  [on_send] looks at the text only: a submit
    with text starts one more thread whatever the earlier threads are
    doing (the history file being writable, so that the handler gets as far
    as the thread start). *)
Theorem submit_always_starts_a_session (st : state) :
  truthy (strip (entry st)) = true -> disk st <> Unreadable ->
  threads (step Send st)
  = threads st ++ [{| prompt := strip (entry st); live_box := None;
                      full_response := []; e := None; at_ := Created |}]
  /\ live_sessions (step Send st) = S (live_sessions st).
Proof.
  intros Ht Hd. cbn [step]. unfold live_sessions.
  rewrite on_send_threads by assumption. split; [reflexivity|].
  rewrite List.filter_app, length_app. simpl. lia.
Qed.

Lemma submit_always_starts_a_session_witness :
  live_sessions typed_again = 1 /\ live_sessions (step Send typed_again) = 2.
Proof.
  split; [reflexivity|].
  apply (submit_always_starts_a_session typed_again); [reflexivity | discriminate].
Defined.

(** C2, as stated, fails: two submits in a row give two live threads. *)
Lemma two_live_sessions :
  ~ (forall st, reachable st -> live_sessions st <= 1).
Proof.
  intros H.
  assert (R : reachable (run two_submits (blank Absent))).
  { apply reachable_run, (reachable_started Absent). reflexivity. }
  apply H in R. vm_compute in R. lia.
Qed.

(** ** The worker thread and the widgets *)

(** C3.  The first thing [send_to_ollama] does, on the worker thread, is
    to build the live box and append it to [messages_box]: the append is
    made by the thread's own step, and the one thing that step posts is the
    scroll. *)
Theorem worker_appends_live_box_itself :
  messages_box (step (Enter 0) submitted)
    = messages_box submitted ++ [(1, new_box (lit "...") false)]
  /\ idle (step (Enter 0) submitted) = idle submitted ++ [scroll].
Proof. split; vm_compute; reflexivity. Qed.

(** The later steps of the thread do go through the queue: they leave the
    widgets, the entry and the file as they are. *)
Lemma later_worker_steps_keep_widgets (sid : nat) (a : action) (st : state) :
  (forall sid', a <> Enter sid') ->
  messages_box (worker sid a st) = messages_box st
  /\ fresh (worker sid a st) = fresh st
  /\ entry (worker sid a st) = entry st
  /\ disk (worker sid a st) = disk st.
Proof.
  intros Ha. unfold worker.
  destruct (threads st !! sid) as [s|]; [|auto].
  destruct a as [| | | |sid'|? r|? ev| |]; auto; destruct (at_ s); auto.
  - destruct (Ha sid' eq_refl).
  - unfold answer, handle. destruct r as [ex|n]; [|destruct (ok n)]; auto.
  - unfold receive, handle.
    destruct ev as [[|ex|ch]| |ex]; auto.
    + destruct (is_JSONDecodeError ex); auto.
    + destruct (chunk_text ch) as [[text|]|ex]; auto.
Qed.

(** C9.  A reply that is empty or whitespace only splits into no segment,
    and [split_and_create_boxes] then leaves in [messages_box] what was
    there, less the live box. *)
Theorem blank_reply_gives_no_message (st : state) (sid : nat) (s : session) :
  threads st !! sid = Some s ->
  forallb isspace (full_response s) = true ->
  split_segments (full_response s) = []
  /\ messages_box (run_closure (split_and_create_boxes sid) st)
     = on_live remove_box s (messages_box st).
Proof.
  intros Hs Hb. split; [apply split_segments_blank; exact Hb|].
  simpl. rewrite Hs. rewrite split_segments_blank by exact Hb.
  simpl map. rewrite append_boxes_nil.
  simpl. rewrite save_history_messages. reflexivity.
Qed.

Lemma blank_reply_gives_no_message_witness :
  split_segments (lit "  ") = []
  /\ messages_box (run_closure (split_and_create_boxes 0) blank_reply)
     = [(0, new_box (lit "hi") true)].
Proof.
  exact (blank_reply_gives_no_message blank_reply 0
    {| prompt := lit "hi"; live_box := Some 1; full_response := lit "  ";
       e := None; at_ := Exited |} eq_refl eq_refl).
Defined.

(** ** Lines of the stream *)




(** ** Error paths *)

Section Errors.

Lemma handle_effect (sid : nat) (s : session) (ex : exn) (st : state) :
  threads st !! sid = Some s ->
  idle (handle sid s ex st) = idle st ++ [report_exception sid]
  /\ messages_box (handle sid s ex st) = messages_box st
  /\ disk (handle sid s ex st) = disk st
  /\ error_text (report_exception sid) (handle sid s ex st)
     = Some (lit "Error: " ++ message ex).
Proof.
  intros Hs. repeat split.
  unfold error_text, handle. simpl threads.
  rewrite list_lookup_insert_eq by (eapply lookup_lt_Some; exact Hs).
  reflexivity.
Qed.

Lemma stream_error_closure (sid : nat) (a : action) (s : session) (c : closure) :
  stream_error sid a s = Some c ->
  (exists status_code, c = report_status sid status_code) \/ c = report_exception sid.
Proof.
  unfold stream_error. intros H.
  destruct a as [| | | | |sid' [ex|n]|sid' [[|ex|ch]| |ex]| |]; try discriminate;
    destruct (at_ s); try discriminate;
    repeat match type of H with
           | (if ?b then _ else _) = _ => destruct b; try discriminate
           | match ?x with _ => _ end = _ => destruct x; try discriminate
           end;
    injection H as <-; eauto.
Qed.

Lemma error_closure_dispatch (c : closure) (sid : nat) (st : state)
    (q : list closure) (text : str) :
  closure_sid c = Some sid ->
  idle st = c :: q -> error_text c st = Some text ->
  messages_box (dispatch st) = messages_box st ++ [(fresh st, new_box text false)]
  /\ disk (dispatch st) = disk st
  /\ calls (dispatch st) = calls st ++ [OnError sid text].
Proof.
  intros Hc Hq Ht. unfold dispatch. rewrite Hq.
  assert (Ht' : error_text c (with_idle q st) = Some text).
  { destruct c; exact Ht. }
  destruct c; try discriminate; simpl in Hc; injection Hc as ->;
    unfold run_closure; rewrite Ht'; repeat split.
Qed.

End Errors.

(** The error paths, step by step.  On an error input (a status for which
    [response.ok] is false, an exception of [requests.post], of
    [iter_lines] or of the body of the loop) the thread changes neither
    [messages_box] nor the file: it posts one error lambda.  The lambda
    formats a text that begins with [Error: ]; when it runs and can format
    its text, [add_message(text, False)] appends one assistant box with that
    text at the end of [messages_box], and the history file is not
    written. *)
Theorem stream_error_is_reported
    (st : state) (sid : nat) (s : session) (a : action) (c : closure) :
  threads st !! sid = Some s ->
  stream_error sid a s = Some c ->
  idle (step a st) = idle st ++ [c]
  /\ messages_box (step a st) = messages_box st
  /\ disk (step a st) = disk st
  /\ (exists text, error_text c (step a st) = Some (lit "Error: " ++ text))
  /\ (forall st2 q text,
        idle st2 = c :: q -> error_text c st2 = Some text ->
        messages_box (dispatch st2)
          = messages_box st2 ++ [(fresh st2, new_box text false)]
        /\ disk (dispatch st2) = disk st2
        /\ calls (dispatch st2) = calls st2 ++ [OnError sid text]).
Proof.
  intros Hs Herr.
  assert (Hsid : closure_sid c = Some sid).
  { destruct (stream_error_closure _ _ _ _ Herr) as [[n ->] | ->]; reflexivity. }
  assert (Hstep :
    idle (step a st) = idle st ++ [c]
    /\ messages_box (step a st) = messages_box st
    /\ disk (step a st) = disk st
    /\ exists text, error_text c (step a st) = Some (lit "Error: " ++ text)).
  { unfold stream_error in Herr.
    destruct a as [| | | | |sid' [ex|n]|sid' [[|ex|ch]| |ex]| |]; try discriminate;
      destruct (at_ s) eqn:Hat; try discriminate;
      destruct (Nat.eqb_spec sid' sid) as [->|]; simpl in Herr;
      try discriminate; try (destruct (chunk_text ch); discriminate);
      first [ rewrite (step_answer sid s _ st Hs Hat); unfold answer
            | rewrite (step_receive sid s _ st Hs Hat); unfold receive ].
    - injection Herr as <-.
      destruct (handle_effect sid s ex st Hs) as (? & ? & ? & ?). eauto 10.
    - destruct (ok n); [discriminate|]. injection Herr as <-.
      repeat split. eexists. reflexivity.
    - destruct (is_JSONDecodeError ex); [discriminate|]. injection Herr as <-.
      destruct (handle_effect sid s ex st Hs) as (? & ? & ? & ?). eauto 10.
    - destruct (chunk_text ch) as [?|ex]; [discriminate|]. injection Herr as <-.
      destruct (handle_effect sid s ex st Hs) as (? & ? & ? & ?). eauto 10.
    - injection Herr as <-.
      destruct (handle_effect sid s ex st Hs) as (? & ? & ? & ?). eauto 10. }
  destruct Hstep as (H1 & H2 & H3 & H4).
  repeat split; try assumption.
  all: eapply error_closure_dispatch; eassumption.
Qed.

Lemma stream_error_is_reported_witness :
  idle answered_500 = idle waiting ++ [report_status 0 500]
  /\ messages_box (dispatch queued_500)
     = messages_box queued_500 ++ [(2, new_box (lit "Error: HTTP 500") false)]
  /\ disk (dispatch queued_500) = disk queued_500.
Proof.
  destruct (stream_error_is_reported waiting 0
    {| prompt := lit "hi"; live_box := Some 1; full_response := [];
       e := None; at_ := Requesting |} (Answer 0 (PostReturns 500))
    (report_status 0 500) eq_refl eq_refl) as (H1 & _ & _ & _ & H5).
  split; [exact H1|].
  destruct (H5 queued_500 [] (lit "Error: HTTP 500") eq_refl eq_refl)
    as (A & B & _).
  split; [exact A | exact B].
Defined.

(** C5.  On a stream error the code sets out to show an error message and
    falls short of the claim.  After a status 500 and with every idle
    source run, the live box is still a child of [messages_box], between
    the user message and the error message, and the file holds the user
    message only.  After a transport error, the thread having left its
    [except] clause before the main loop gets to the lambda (as in an
    ordinary run), not even the message is there: the lambda raises
    [NameError], the live box stays, and the file holds the user message
    only. *)
Lemma error_keeps_placeholder_and_is_not_saved :
  idle after_500 = [] /\ live_sessions after_500 = 0
  /\ messages_box after_500
     = [(0, new_box (lit "hi") true);
        (1, new_box (lit "...") false);
        (2, new_box (lit "Error: HTTP 500") false)]
  /\ disk after_500 = Document (history [(0, new_box (lit "hi") true)])
  /\ disk after_500 <> Document (history (messages_box after_500))
  /\ idle (step Dispatch refused_left) = []
  /\ live_sessions (step Dispatch refused_left) = 0
  /\ messages_box (step Dispatch refused_left)
     = [(0, new_box (lit "hi") true); (1, new_box (lit "...") false)]
  /\ disk (step Dispatch refused_left)
     = Document (history [(0, new_box (lit "hi") true)]).
Proof.
  repeat split; try (vm_compute; reflexivity). vm_compute. discriminate.
Qed.

(** On the exception path the lambda is closed over [e], which Python
    unbinds when the [except] clause ends: once the thread has left the
    clause the lambda raises [NameError] and no message appears; a lambda
    that runs before that shows the text. *)
Lemma exception_text_is_lost_after_the_clause :
  messages_box (run [Answer 0 refused; Leave 0; Dispatch; Dispatch; Dispatch] waiting)
    = [(0, new_box (lit "hi") true); (1, new_box (lit "...") false)]
  /\ messages_box (run [Answer 0 refused; Dispatch; Dispatch; Dispatch; Leave 0] waiting)
    = [(0, new_box (lit "hi") true); (1, new_box (lit "...") false);
       (2, new_box (lit "Error: Connection refused") false)].
Proof. split; vm_compute; reflexivity. Qed.

(** ** The history file *)

Section History.

Lemma box_of_history_entry (box : MessageBox) :
  box_of_entry (history_entry box) = Ok box.
Proof. destruct box. vm_compute. reflexivity. Qed.

Lemma load_boxes_history (boxes : list MessageBox) (st : state) :
  load_boxes (map history_entry boxes) st = (append_boxes boxes st, None).
Proof.
  revert st. induction boxes as [|box rest IH]; intros st.
  - reflexivity.
  - cbn [map load_boxes]. rewrite box_of_history_entry. apply IH.
Qed.

Lemma append_boxes_messages (boxes : list MessageBox) (st : state) :
  map snd (messages_box (append_boxes boxes st))
  = map snd (messages_box st) ++ boxes.
Proof.
  revert st. induction boxes as [|box rest IH]; intros st.
  - cbn. rewrite app_nil_r. reflexivity.
  - cbn [append_boxes fold_left]. fold (append_boxes rest (append_box box st)).
    rewrite IH. cbn [append_box messages_box].
    rewrite map_app, <- app_assoc. reflexivity.
Qed.

Lemma history_map (boxes : children) :
  history boxes = JArr (map history_entry (map snd boxes)).
Proof. unfold history. rewrite map_map. reflexivity. Qed.



End History.

(** C7.  [save_history] followed by [load_history] in a new window gives
    the same boxes (label text, [is_user], [is_code]) in the same order. *)
Theorem save_then_load (st st' : state) :
  save_history st = (st', None) ->
  exists st'',
    load_history (blank (disk st')) = (st'', None)
    /\ map snd (messages_box st'') = map snd (messages_box st).
Proof.
  unfold save_history. intros H.
  assert (Hd : disk st' = Document (history (messages_box st))).
  { destruct (disk st); injection H as <-; try discriminate; reflexivity. }
  rewrite Hd. unfold load_history. cbn [disk blank].
  rewrite history_map. cbn [iterate]. rewrite load_boxes_history.
  eexists. split; [reflexivity|].
  cbn [scroll_to_bottom idle_add with_idle messages_box].
  rewrite append_boxes_messages. reflexivity.
Qed.

Lemma save_then_load_witness :
  exists st'',
    load_history (blank (disk (fst (save_history waiting)))) = (st'', None)
    /\ map snd (messages_box st'')
       = [new_box (lit "hi") true; new_box (lit "...") false].
Proof. exact (save_then_load waiting (fst (save_history waiting)) eq_refl). Defined.




(** ** The texts a thread shows

    The worker appends to [full_response] and posts [update]; the main loop
    runs the updates later, each reading [full_response] as it is then.
    The invariant relates, for one thread, where it stands, its text, the
    idle queue and the history of callbacks. *)

Section Histories.

Lemma snoc_split {A : Type} (l pre post : list A) (c x : A) :
  l ++ [c] = pre ++ x :: post ->
  (exists post', post = post' ++ [c] /\ l = pre ++ x :: post')
  \/ (post = [] /\ x = c /\ l = pre).
Proof.
  destruct post as [|y post' _] using rev_ind; intros H.
  - right. apply app_inj_tail in H as [-> ->]. auto.
  - left. exists post'.
    change (pre ++ x :: post' ++ [y]) with (pre ++ (x :: post') ++ [y]) in H.
    rewrite app_assoc in H. apply app_inj_tail in H as [-> ->]. auto.
Qed.

Lemma chunk_texts_app (sid : nat) (tr1 tr2 : list call) :
  chunk_texts sid (tr1 ++ tr2) = chunk_texts sid tr1 ++ chunk_texts sid tr2.
Proof.
  induction tr1 as [|[sid' t|sid' t|sid' t] tr1 IH]; simpl; auto.
  destruct (Nat.eqb sid' sid); simpl; congruence.
Qed.






Lemma ascending_last (texts : list str) (text : str) :
  ascending (texts ++ [text]) ->
  ascending texts /\ List.last texts [] `prefix_of` text.
Proof.
  induction texts as [|a [|b rest] IH]; intros H.
  - split; [exact I | apply prefix_nil].
  - destruct H as [H _]. split; [simpl; auto | exact H].
  - destruct H as [Hab Hr]. apply IH in Hr as [Hr Hl].
    split; [split; assumption | exact Hl].
Qed.


End Histories.

Section Preservation.

Variable sid : nat.










End Preservation.

Section Steps.


Lemma save_history_core (st : state) :
  threads (fst (save_history st)) = threads st
  /\ idle (fst (save_history st)) = idle st
  /\ calls (fst (save_history st)) = calls st.
Proof. unfold save_history. destruct (disk st); auto. Qed.

Lemma append_boxes_core (boxes : list MessageBox) (st : state) :
  threads (append_boxes boxes st) = threads st
  /\ idle (append_boxes boxes st) = idle st
  /\ calls (append_boxes boxes st) = calls st.
Proof.
  revert st. induction boxes as [|box rest IH]; intros st; [auto|].
  cbn [append_boxes fold_left]. fold (append_boxes rest (append_box box st)).
  destruct (IH (append_box box st)) as (-> & -> & ->). auto.
Qed.

Lemma pc_at_same (st st' : state) (sid : nat) :
  threads st' = threads st -> pc_at st' sid = pc_at st sid.
Proof. unfold pc_at. intros ->. reflexivity. Qed.





Lemma start_thread_lookup (text : str) (st : state) (sid : nat) :
  pc_at (start_thread text st) sid = pc_at st sid
  /\ cell_at (start_thread text st) sid = cell_at st sid.
Proof.
  unfold pc_at, cell_at, start_thread. cbn [threads with_threads].
  destruct (lt_eq_lt_dec sid (length (threads st))) as [[Hlt|Heq]|Hgt].
  - rewrite lookup_app_l by exact Hlt. auto.
  - rewrite lookup_app_r by lia.
    replace (sid - length (threads st)) with 0 by lia.
    rewrite (lookup_ge_None_2 (threads st) sid) by lia. auto.
  - rewrite !lookup_ge_None_2; [auto | lia |].
    rewrite length_app. simpl. lia.
Qed.



Lemma chunk_texts_other (sid sid' : nat) (text : str) :
  sid' <> sid -> chunk_texts sid [OnChunk sid' text] = [].
Proof. intros H. simpl. apply Nat.eqb_neq in H. rewrite H. reflexivity. Qed.




End Steps.

Section Workers.









End Workers.

Section Reachable.


Lemma load_boxes_core (msgs : list json) (st : state) :
  threads (fst (load_boxes msgs st)) = threads st
  /\ idle (fst (load_boxes msgs st)) = idle st
  /\ calls (fst (load_boxes msgs st)) = calls st.
Proof.
  revert st. induction msgs as [|msg rest IH]; intros st; cbn [load_boxes]; [auto|].
  destruct (box_of_entry msg) as [box|ex]; [|auto].
  destruct (IH (append_box box st)) as (-> & -> & ->). auto.
Qed.



(** The threads and their texts under a step. *)

Lemma run_closure_threads (c : closure) (st : state) :
  threads (run_closure c st) = threads st.
Proof.
  destruct c as [|sid|sid|sid n|sid]; cbn [run_closure].
  - reflexivity.
  - destruct (threads st !! sid); reflexivity.
  - destruct (threads st !! sid) as [s|]; [|reflexivity].
    cbn [threads record].
    destruct (save_history_core
      (scroll_to_bottom
         (append_boxes (map segment_box (split_segments (full_response s)))
            (with_messages (on_live remove_box s) st)))) as (-> & _).
    cbn [threads scroll_to_bottom idle_add with_idle].
    destruct (append_boxes_core
      (map segment_box (split_segments (full_response s)))
      (with_messages (on_live remove_box s) st)) as (-> & _).
    reflexivity.
  - reflexivity.
  - destruct (error_text (report_exception sid) st); reflexivity.
Qed.

Lemma dispatch_threads (st : state) : threads (dispatch st) = threads st.
Proof.
  unfold dispatch. destruct (idle st) as [|c q]; [reflexivity|].
  rewrite run_closure_threads. reflexivity.
Qed.


Lemma on_delete_clicked_threads (id : nat) (st : state) :
  threads (on_delete_clicked id st) = threads st.
Proof.
  unfold on_delete_clicked.
  destruct (find_box id (messages_box st)) as [box|]; [|reflexivity].
  destruct (truth (is_code box)); [reflexivity|].
  destruct (save_history_core (with_messages (remove_box id) st)) as (-> & _).
  reflexivity.
Qed.



End Reachable.



(** * Further properties of the code *)

Section Widgets.

Lemma remove_box_In (id : nat) (boxes : children) (b : nat * MessageBox) :
  In b (remove_box id boxes) <-> In b boxes /\ b.1 <> id.
Proof.
  unfold remove_box. rewrite filter_In, negb_true_iff, Nat.eqb_neq. reflexivity.
Qed.

Lemma set_text_fst (id : nat) (text : str) (boxes : children) :
  map fst (set_text id text boxes) = map fst boxes.
Proof.
  unfold set_text. rewrite map_map. apply map_ext.
  intros [i b]. cbn. destruct (Nat.eqb i id); reflexivity.
Qed.

Lemma set_text_In (id : nat) (text : str) (boxes : children) (i : nat) (b : MessageBox) :
  In (i, b) (set_text id text boxes) ->
  exists b0, In (i, b0) boxes /\ is_user b = is_user b0 /\ is_code b = is_code b0
             /\ (i <> id -> b = b0).
Proof.
  unfold set_text. rewrite in_map_iff. intros ([i0 b0] & E & Hin). cbn in E.
  destruct (Nat.eqb_spec i0 id) as [->|Hne]; injection E as <- <-.
  - exists b0. repeat split; [exact Hin | congruence].
  - exists b0. auto.
Qed.

Lemma remove_box_NoDup (id : nat) (boxes : children) :
  List.NoDup (map fst boxes) -> List.NoDup (map fst (remove_box id boxes)).
Proof.
  induction boxes as [|[i b] rest IH]; cbn; [auto|].
  intros H. apply List.NoDup_cons_iff in H as [Hi Hr].
  destruct (Nat.eqb i id); cbn; [auto|].
  apply List.NoDup_cons_iff. split; [|auto].
  intros Hin. apply Hi. apply in_map_iff in Hin as ([i' b'] & E & Hin').
  cbn in E. subst i'. apply remove_box_In in Hin' as [Hin' _].
  apply in_map_iff. exists (i, b'). auto.
Qed.

Lemma widgets_append (boxes : children) (n : nat) (ts : list session) (box : MessageBox) :
  widgets_ok boxes n ts -> widgets_ok (boxes ++ [(n, box)]) (S n) ts.
Proof.
  intros (Hlt & Hnd & Hlive).
  rewrite List.Forall_forall in Hlt.
  split; [|split].
  - apply List.Forall_forall. intros b [Hb|[<-|[]]]%in_app_iff.
    + apply Hlt in Hb. lia.
    + cbn. lia.
  - rewrite map_app. cbn. apply List.NoDup_app; [exact Hnd | | ].
    + apply List.NoDup_cons; [intros [] | apply List.NoDup_nil].
    + intros i Hi [<-|[]].
      apply in_map_iff in Hi as (b & E & Hin). apply Hlt in Hin. lia.
  - intros sid s id Hs Hl. destruct (Hlive sid s id Hs Hl) as [Hid Hc].
    split; [lia|].
    intros box' [Hin|[E|[]]]%in_app_iff; [exact (Hc box' Hin)|].
    injection E as E _. lia.
Qed.

Lemma widgets_remove (boxes : children) (n : nat) (ts : list session) (id : nat) :
  widgets_ok boxes n ts -> widgets_ok (remove_box id boxes) n ts.
Proof.
  intros (Hlt & Hnd & Hlive).
  rewrite List.Forall_forall in Hlt.
  split; [|split].
  - apply List.Forall_forall. intros b [Hb _]%remove_box_In. exact (Hlt b Hb).
  - apply remove_box_NoDup, Hnd.
  - intros sid s id0 Hs Hl. destruct (Hlive sid s id0 Hs Hl) as [Hid Hc].
    split; [exact Hid|]. intros box [Hin _]%remove_box_In. exact (Hc box Hin).
Qed.

Lemma widgets_set_text (boxes : children) (n : nat) (ts : list session)
    (id : nat) (text : str) :
  widgets_ok boxes n ts -> widgets_ok (set_text id text boxes) n ts.
Proof.
  intros (Hlt & Hnd & Hlive).
  rewrite List.Forall_forall in Hlt.
  split; [|split].
  - apply List.Forall_forall. intros [i b] (b0 & Hin & _)%set_text_In.
    exact (Hlt _ Hin).
  - rewrite set_text_fst. exact Hnd.
  - intros sid s id0 Hs Hl. destruct (Hlive sid s id0 Hs Hl) as [Hid Hc].
    split; [exact Hid|].
    intros box (b0 & Hin & _ & E & _)%set_text_In. rewrite E. exact (Hc b0 Hin).
Qed.


(** The live boxes of [ts'] are live boxes of [ts]. *)
Lemma widgets_threads (boxes : children) (n : nat) (ts ts' : list session) :
  (forall sid s' id, ts' !! sid = Some s' -> live_box s' = Some id ->
     exists sid0 s, ts !! sid0 = Some s /\ live_box s = Some id) ->
  widgets_ok boxes n ts -> widgets_ok boxes n ts'.
Proof.
  intros Hsub (Hlt & Hnd & Hlive). split; [exact Hlt | split; [exact Hnd|]].
  intros sid s' id Hs Hl. destruct (Hsub sid s' id Hs Hl) as (sid0 & s & Hs0 & Hl0).
  exact (Hlive sid0 s id Hs0 Hl0).
Qed.

Lemma widgets_start_thread (text : str) (st : state) :
  widgets_inv st -> widgets_inv (start_thread text st).
Proof.
  apply widgets_threads. cbn [threads start_thread with_threads].
  intros sid s' id Hs Hl.
  apply lookup_app_Some in Hs as [Hs|[_ Hs]]; [eauto|].
  destruct (sid - length (threads st)) as [|k]; [|destruct k; discriminate].
  injection Hs as <-. discriminate.
Qed.

Lemma widgets_set_session (sid : nat) (s s' : session) (st : state) :
  threads st !! sid = Some s -> live_box s' = live_box s ->
  widgets_inv st -> widgets_inv (set_session sid s' st).
Proof.
  intros Hs Hl. apply widgets_threads. cbn [threads set_session with_threads].
  intros sid0 s0 id Hs0 Hl0.
  destruct (Nat.eq_dec sid0 sid) as [->|Hne].
  - rewrite list_lookup_insert_eq in Hs0 by (eapply lookup_lt_Some; exact Hs).
    injection Hs0 as <-. exists sid, s. split; [exact Hs | congruence].
  - rewrite list_lookup_insert_ne in Hs0 by congruence. eauto.
Qed.

Lemma widgets_append_box (box : MessageBox) (st : state) :
  widgets_inv st -> widgets_inv (append_box box st).
Proof. apply widgets_append. Qed.

Lemma widgets_append_boxes (boxes : list MessageBox) (st : state) :
  widgets_inv st -> widgets_inv (append_boxes boxes st).
Proof.
  revert st. induction boxes as [|box rest IH]; intros st H; [exact H|].
  exact (IH (append_box box st) (widgets_append_box box st H)).
Qed.

Lemma save_history_widgets (st : state) :
  messages_box (fst (save_history st)) = messages_box st
  /\ fresh (fst (save_history st)) = fresh st
  /\ threads (fst (save_history st)) = threads st.
Proof. unfold save_history. destruct (disk st); auto. Qed.

Lemma widgets_save_history (st : state) :
  widgets_inv st -> widgets_inv (fst (save_history st)).
Proof.
  unfold widgets_inv. destruct (save_history_widgets st) as (-> & -> & ->). auto.
Qed.

Lemma widgets_add_message (text : str) (user : bool) (st : state) :
  widgets_inv st -> widgets_inv (fst (add_message text user st)).
Proof.
  intros H. unfold add_message. destruct user.
  - apply (widgets_save_history (scroll_to_bottom _)).
    exact (widgets_append_box _ st H).
  - exact (widgets_append_box _ st H).
Qed.

Lemma widgets_on_send (st : state) : widgets_inv st -> widgets_inv (on_send st).
Proof.
  intros H. unfold on_send. destruct (truthy (strip (entry st))); [|exact H].
  pose proof (widgets_add_message (strip (entry st)) true st H) as H'.
  destruct (add_message (strip (entry st)) true st) as [st1 [ex|]]; [exact H'|].
  apply widgets_start_thread. exact H'.
Qed.

Lemma widgets_on_delete_clicked (id : nat) (st : state) :
  widgets_inv st -> widgets_inv (on_delete_clicked id st).
Proof.
  intros H. unfold on_delete_clicked.
  destruct (find_box id (messages_box st)) as [box|]; [|exact H].
  destruct (truth (is_code box)); [exact H|].
  apply widgets_save_history. apply widgets_remove. exact H.
Qed.

Lemma widgets_on_live (f : nat -> children -> children) (s : session) (st : state) :
  (forall id boxes n ts, widgets_ok boxes n ts -> widgets_ok (f id boxes) n ts) ->
  widgets_inv st -> widgets_inv (with_messages (on_live f s) st).
Proof.
  intros Hf H. unfold widgets_inv, on_live. cbn [messages_box fresh threads with_messages].
  destruct (live_box s); [apply Hf|]; exact H.
Qed.

Lemma widgets_run_closure (c : closure) (st : state) :
  widgets_inv st -> widgets_inv (run_closure c st).
Proof.
  intros H. destruct c as [|sid|sid|sid n|sid]; cbn [run_closure].
  - exact H.
  - destruct (threads st !! sid) as [s|]; [|exact H].
    apply (widgets_on_live (fun id => set_text id (full_response s)) s st); [|exact H].
    intros id boxes n ts. apply widgets_set_text.
  - destruct (threads st !! sid) as [s|]; [|exact H].
    apply (widgets_save_history (scroll_to_bottom _)).
    apply (widgets_append_boxes _ (with_messages _ st)).
    apply widgets_on_live; [|exact H].
    intros id boxes n ts. apply widgets_remove.
  - apply (widgets_add_message _ false st H).
  - destruct (error_text (report_exception sid) st) as [text|]; [|exact H].
    apply (widgets_add_message _ false st H).
Qed.

Lemma widgets_dispatch (st : state) : widgets_inv st -> widgets_inv (dispatch st).
Proof.
  intros H. unfold dispatch. destruct (idle st) as [|c q]; [exact H|].
  apply widgets_run_closure. exact H.
Qed.

Lemma widgets_enter (sid : nat) (s : session) (st : state) :
  threads st !! sid = Some s -> widgets_inv st -> widgets_inv (enter sid s st).
Proof.
  intros Hs (Hlt & Hnd & Hlive). unfold enter, widgets_inv.
  cbn [messages_box fresh threads set_session with_threads scroll_to_bottom
       idle_add with_idle append_box].
  destruct (widgets_append (messages_box st) (fresh st) (threads st)
              (new_box (lit "...") false) (conj Hlt (conj Hnd Hlive)))
    as (Hlt' & Hnd' & Hlive').
  split; [exact Hlt' | split; [exact Hnd'|]].
  intros sid0 s0 id Hs0 Hl0.
  destruct (Nat.eq_dec sid0 sid) as [->|Hne].
  - rewrite list_lookup_insert_eq in Hs0 by (eapply lookup_lt_Some; exact Hs).
    injection Hs0 as <-. cbn in Hl0. injection Hl0 as <-.
    split; [lia|].
    intros box [Hin|[E|[]]]%in_app_iff.
    + rewrite List.Forall_forall in Hlt. apply Hlt in Hin. cbn in Hin. lia.
    + injection E as <-. reflexivity.
  - rewrite list_lookup_insert_ne in Hs0 by congruence.
    exact (Hlive' sid0 s0 id Hs0 Hl0).
Qed.

Lemma widgets_worker (sid : nat) (a : action) (st : state) :
  widgets_inv st -> widgets_inv (worker sid a st).
Proof.
  intros H. unfold worker.
  destruct (threads st !! sid) as [s|] eqn:Hs; [|exact H].
  assert (Set_ : forall s', live_box s' = live_box s ->
                            widgets_inv (set_session sid s' st)).
  { intros s' Hl. exact (widgets_set_session sid s s' st Hs Hl H). }
  assert (Post : forall c s', live_box s' = live_box s ->
                              widgets_inv (idle_add c (set_session sid s' st))).
  { intros c s' Hl. exact (Set_ s' Hl). }
  destruct a as [| | | | |? r|? ev| |]; try exact H;
    destruct (at_ s); try exact H.
  - apply widgets_enter; assumption.
  - unfold answer, handle. destruct r as [ex|n]; [|destruct (ok n)];
      first [apply Post | apply Set_]; reflexivity.
  - unfold receive, handle.
    destruct ev as [[|ex|ch]| |ex]; try exact H;
      try (destruct (is_JSONDecodeError ex); [exact H|]);
      try (destruct (chunk_text ch) as [[text|]|ex]; [| exact H |]);
      first [apply Post | apply Set_]; reflexivity.
  - apply Post. reflexivity.
  - apply Set_. reflexivity.
Qed.

Lemma widgets_step (a : action) (st : state) :
  widgets_inv st -> widgets_inv (step a st).
Proof.
  intros H. destruct a; cbn [step];
    [ exact H | apply widgets_on_send | apply widgets_on_delete_clicked
    | apply widgets_dispatch | apply widgets_worker | apply widgets_worker
    | apply widgets_worker | apply widgets_worker | apply widgets_worker ];
    exact H.
Qed.

Lemma widgets_load_boxes (msgs : list json) (st : state) :
  widgets_inv st -> widgets_inv (fst (load_boxes msgs st)).
Proof.
  revert st. induction msgs as [|msg rest IH]; intros st H; cbn [load_boxes]; [exact H|].
  destruct (box_of_entry msg) as [box|ex]; [|exact H].
  exact (IH (append_box box st) (widgets_append_box box st H)).
Qed.

Lemma widgets_load_history (st : state) :
  widgets_inv st -> widgets_inv (fst (load_history st)).
Proof.
  intros H. unfold load_history.
  destruct (disk st) as [| | |j]; try exact H.
  destruct (iterate j) as [msgs|ex]; [|exact H].
  pose proof (widgets_load_boxes msgs st H) as H1.
  destruct (load_boxes msgs st) as [st1 [ex|]]; exact H1.
Qed.

Lemma widgets_blank (d : file) : widgets_inv (blank d).
Proof.
  split; [constructor | split; [constructor|]].
  intros sid s id Hs. destruct sid; discriminate.
Qed.

Lemma reachable_widgets (st : state) : reachable st -> widgets_inv st.
Proof.
  intros (d & st0 & acts & Hst & <-).
  assert (H0 : widgets_inv st0).
  { unfold started in Hst.
    pose proof (widgets_load_history (blank d) (widgets_blank d)) as H.
    destruct (load_history (blank d)) as [st1 [ex|]]; [discriminate|].
    injection Hst as <-. exact H. }
  clear Hst. revert st0 H0. induction acts as [|a acts IH]; intros st0 H0; [exact H0|].
  rewrite run_cons. apply IH, widgets_step, H0.
Qed.

End Widgets.

Section Files.

Lemma load_boxes_disk (msgs : list json) (st : state) :
  disk (fst (load_boxes msgs st)) = disk st.
Proof.
  revert st. induction msgs as [|msg rest IH]; intros st; cbn [load_boxes]; [reflexivity|].
  destruct (box_of_entry msg) as [box|ex]; [|reflexivity].
  rewrite IH. reflexivity.
Qed.

Lemma load_history_disk (st : state) : disk (fst (load_history st)) = disk st.
Proof.
  unfold load_history. destruct (disk st) as [| | |j] eqn:Hd; try exact Hd.
  destruct (iterate j) as [msgs|ex]; [|exact Hd].
  pose proof (load_boxes_disk msgs st) as H.
  destruct (load_boxes msgs st) as [st1 [ex|]];
    cbn [fst disk scroll_to_bottom idle_add with_idle] in *; congruence.
Qed.

(** What [save_history] writes can be loaded. *)
Lemma started_history (boxes : children) :
  exists st', started (Document (history boxes)) = Some st'.
Proof.
  unfold started, load_history. cbn [disk blank].
  rewrite history_map. cbn [iterate]. rewrite load_boxes_history. eauto.
Qed.

Lemma save_history_disk (st : state) :
  disk st <> Unreadable ->
  disk (fst (save_history st)) = Document (history (messages_box st)).
Proof. intros H. rewrite save_history_ok by exact H. reflexivity. Qed.

Lemma loadable_readable (d : file) : loadable d -> d <> Unreadable.
Proof. intros [st' H] ->. discriminate. Qed.

Lemma loadable_save_history (st : state) :
  loadable (disk st) -> loadable (disk (fst (save_history st))).
Proof.
  intros H. rewrite save_history_disk by (apply loadable_readable, H).
  apply started_history.
Qed.

Lemma append_boxes_disk (boxes : list MessageBox) (st : state) :
  disk (append_boxes boxes st) = disk st.
Proof.
  revert st. induction boxes as [|box rest IH]; intros st; [reflexivity|].
  exact (IH (append_box box st)).
Qed.

Lemma worker_disk (sid : nat) (a : action) (st : state) :
  disk (worker sid a st) = disk st.
Proof.
  unfold worker. destruct (threads st !! sid) as [s|]; [|reflexivity].
  destruct a as [| | | | |? r|? ev| |]; try reflexivity;
    destruct (at_ s); try reflexivity.
  - unfold answer, handle. destruct r as [ex|n]; [|destruct (ok n)]; reflexivity.
  - unfold receive, handle.
    destruct ev as [[|ex|ch]| |ex]; try reflexivity.
    + destruct (is_JSONDecodeError ex); reflexivity.
    + destruct (chunk_text ch) as [[text|]|ex]; reflexivity.
Qed.

Lemma run_closure_disk (c : closure) (st : state) :
  (forall sid, c <> split_and_create_boxes sid) -> disk (run_closure c st) = disk st.
Proof.
  intros Hc. destruct c as [|sid|sid|sid n|sid]; cbn [run_closure].
  - reflexivity.
  - destruct (threads st !! sid); reflexivity.
  - destruct (Hc sid eq_refl).
  - reflexivity.
  - destruct (error_text (report_exception sid) st); reflexivity.
Qed.

Lemma loadable_step (a : action) (st : state) :
  loadable (disk st) -> loadable (disk (step a st)).
Proof.
  intros H. destruct a; cbn [step]; try (rewrite worker_disk; exact H).
  - exact H.
  - unfold on_send. destruct (truthy (strip (entry st))); [|exact H].
    unfold add_message.
    pose proof (loadable_save_history
      (scroll_to_bottom (append_box (new_box (strip (entry st)) true) st)) H) as H'.
    destruct (save_history _) as [st1 [ex|]]; exact H'.
  - unfold on_delete_clicked.
    destruct (find_box id (messages_box st)) as [box|]; [|exact H].
    destruct (truth (is_code box)); [exact H|].
    apply (loadable_save_history (with_messages (remove_box id) st) H).
  - unfold dispatch. destruct (idle st) as [|c q]; [exact H|].
    destruct c as [|sid|sid|sid n|sid];
      try (rewrite run_closure_disk by discriminate; exact H).
    cbn [run_closure threads with_idle].
    destruct (threads st !! sid) as [s|]; [|exact H].
    cbn [disk record]. apply loadable_save_history.
    cbn [disk scroll_to_bottom idle_add with_idle].
    rewrite append_boxes_disk. exact H.
Qed.

Lemma reachable_loadable (st : state) : reachable st -> loadable (disk st).
Proof.
  intros (d & st0 & acts & Hst & <-).
  assert (H0 : loadable (disk st0)).
  { assert (disk st0 = d) as ->; [|eexists; exact Hst].
    unfold started in Hst. pose proof (load_history_disk (blank d)) as H.
    destruct (load_history (blank d)) as [st1 [ex|]]; [discriminate|].
    injection Hst as <-. exact H. }
  clear Hst. revert st0 H0. induction acts as [|a acts IH]; intros st0 H0; [exact H0|].
  rewrite run_cons. apply IH, loadable_step, H0.
Qed.

End Files.

Section Samples.

Lemma reachable_waiting : reachable waiting.
Proof.
  unfold waiting, submitted. do 2 apply reachable_run.
  apply (reachable_started Absent). reflexivity.
Qed.

Lemma reachable_reading : reachable reading.
Proof. unfold reading. apply reachable_run, reachable_waiting. Qed.

Lemma reachable_shown : reachable shown.
Proof. unfold shown. apply reachable_run, reachable_reading. Qed.

Lemma reachable_update_queued : reachable update_queued.
Proof. unfold update_queued. apply reachable_run, reachable_reading. Qed.


Lemma reachable_loaded_code : reachable loaded_code.
Proof. apply (reachable_started code_history). reflexivity. Qed.

End Samples.

(** X1.  In every state a run can reach, the history file is one that
    [load_history] reads without an exception: whatever the window has
    written can be loaded by the next window. *)
Theorem history_file_stays_loadable (st : state) :
  reachable st -> exists st', started (disk st) = Some st'.
Proof. apply reachable_loadable. Qed.

Lemma history_file_stays_loadable_witness :
  exists st', started (disk shown) = Some st'.
Proof. apply (history_file_stays_loadable shown), reachable_shown. Defined.

(** X2.  The history file changes at three places only: a submit, a click
    on a delete button, and the [split_and_create_boxes] that ends a reply.
    Typing, the worker threads, the scrolls, the updates and the two error
    lambdas leave the file as it is. *)
Theorem file_written_only_at_three_places (a : action) (st : state) :
  disk (step a st) <> disk st ->
  a = Send \/ (exists id, a = Delete id)
  \/ (a = Dispatch /\ exists sid q, idle st = split_and_create_boxes sid :: q).
Proof.
  intros H. destruct a; cbn [step] in H; eauto;
    try (exfalso; apply H; apply worker_disk).
  - exfalso. apply H. reflexivity.
  - right. right. split; [reflexivity|].
    unfold dispatch in H. destruct (idle st) as [|c q]; [exfalso; apply H; reflexivity|].
    destruct c as [|sid|sid|sid n|sid]; eauto;
      exfalso; apply H; rewrite run_closure_disk by discriminate; reflexivity.
Qed.

Lemma file_written_only_at_three_places_witness :
  Dispatch = Send \/ (exists id, Dispatch = Delete id)
  \/ (Dispatch = Dispatch
      /\ exists sid q, idle split_queued = split_and_create_boxes sid :: q).
Proof.
  apply (file_written_only_at_three_places Dispatch split_queued).
  vm_compute. discriminate.
Defined.

Section Boxes.




Lemma set_text_absent (id : nat) (text : str) (boxes : children) :
  ~ In id (map fst boxes) -> set_text id text boxes = boxes.
Proof.
  induction boxes as [|[i b] rest IH]; cbn; [reflexivity|].
  intros H. destruct (Nat.eqb_spec i id) as [->|Hne].
  - exfalso. apply H. left. reflexivity.
  - f_equal. apply IH. intros Hin. apply H. right. exact Hin.
Qed.

Lemma set_text_middle (id : nat) (text : str) (box : MessageBox) (l1 l2 : children) :
  List.NoDup (map fst (l1 ++ (id, box) :: l2)) ->
  set_text id text (l1 ++ (id, box) :: l2) = l1 ++ (id, relabel text box) :: l2.
Proof.
  intros H. rewrite map_app in H. cbn in H.
  pose proof (List.NoDup_remove_2 _ _ _ H) as Hn.
  unfold set_text. rewrite map_app. cbn. rewrite Nat.eqb_refl.
  fold (set_text id text l1). fold (set_text id text l2).
  rewrite !set_text_absent; [reflexivity | |];
    intros Hin; apply Hn, in_app_iff; auto.
Qed.

Lemma find_box_In (id : nat) (boxes : children) (box : MessageBox) :
  find_box id boxes = Some box -> In (id, box) boxes.
Proof.
  unfold find_box. induction boxes as [|[i b] rest IH]; cbn; [discriminate|].
  destruct (Nat.eqb_spec i id) as [->|Hne]; cbn.
  - intros [= ->]. left. reflexivity.
  - intros H. right. apply IH. exact H.
Qed.

Lemma same_number_same_box (boxes : children) (id : nat) (b1 b2 : MessageBox) :
  List.NoDup (map fst boxes) -> In (id, b1) boxes -> In (id, b2) boxes -> b1 = b2.
Proof.
  induction boxes as [|[i b] rest IH]; cbn; [intros _ []|].
  intros H. apply List.NoDup_cons_iff in H as [Hi Hr].
  intros [E1|H1] [E2|H2].
  - congruence.
  - injection E1 as -> ->. exfalso. apply Hi, in_map_iff. exists (id, b2). auto.
  - injection E2 as -> ->. exfalso. apply Hi, in_map_iff. exists (id, b1). auto.
  - auto.
Qed.

Lemma append_boxes_messages_fst (boxes : list MessageBox) (st : state) :
  map fst (messages_box (append_boxes boxes st))
  = map fst (messages_box st) ++ seq (fresh st) (length boxes).
Proof.
  revert st. induction boxes as [|box rest IH]; intros st.
  - cbn. rewrite app_nil_r. reflexivity.
  - cbn [append_boxes fold_left]. fold (append_boxes rest (append_box box st)).
    rewrite IH. cbn [append_box messages_box fresh length seq].
    rewrite map_app, <- app_assoc. reflexivity.
Qed.

End Boxes.

(** X3.  A submit with text (the file being writable) appends one user box
    with the stripped text at the end of [messages_box], clears the entry,
    and leaves in the file the history of the boxes then shown. *)
Theorem submit_appends_and_saves (st : state) :
  truthy (strip (entry st)) = true -> disk st <> Unreadable ->
  messages_box (step Send st)
    = messages_box st ++ [(fresh st, new_box (strip (entry st)) true)]
  /\ entry (step Send st) = []
  /\ disk (step Send st) = Document (history (messages_box (step Send st))).
Proof.
  intros Ht Hd. cbn [step]. unfold on_send, add_message. rewrite Ht.
  rewrite save_history_ok by exact Hd. repeat split.
Qed.

Lemma submit_appends_and_saves_witness :
  messages_box (step Send typed_again)
    = messages_box typed_again ++ [(1, new_box (lit "two") true)]
  /\ entry (step Send typed_again) = []
  /\ disk (step Send typed_again)
     = Document (history (messages_box (step Send typed_again))).
Proof.
  refine (submit_appends_and_saves typed_again _ _); [reflexivity | discriminate].
Defined.



(** X5.  In a reachable state, an [update] at the head of the idle queue
    sets the label of the live box of its thread to the accumulated text and
    changes nothing else in [messages_box]: no box is added, removed or
    moved, and the file is not written. *)
Theorem update_relabels_the_live_box
    (st : state) (sid id : nat) (s : session) (q : list closure)
    (box : MessageBox) (l1 l2 : children) :
  reachable st ->
  idle st = update sid :: q ->
  threads st !! sid = Some s -> live_box s = Some id ->
  messages_box st = l1 ++ (id, box) :: l2 ->
  messages_box (step Dispatch st)
    = l1 ++ (id, relabel (full_response s) box) :: l2
  /\ disk (step Dispatch st) = disk st.
Proof.
  intros R Hq Hs Hl Hm.
  destruct (reachable_widgets st R) as (_ & Hnd & _). rewrite Hm in Hnd.
  cbn [step]. unfold dispatch. rewrite Hq.
  cbn [run_closure threads with_idle]. rewrite Hs.
  cbn [messages_box disk record scroll_to_bottom idle_add with_idle with_messages].
  unfold on_live. rewrite Hl, Hm.
  rewrite (set_text_middle id _ box l1 l2 Hnd). auto.
Qed.

Lemma update_relabels_the_live_box_witness :
  messages_box (step Dispatch update_queued)
    = [(0, new_box (lit "hi") true)]
      ++ [(1, relabel (lit "a") (new_box (lit "...") false))]
  /\ disk (step Dispatch update_queued) = disk update_queued.
Proof.
  apply (update_relabels_the_live_box update_queued 0 1
           {| prompt := lit "hi"; live_box := Some 1; full_response := lit "a";
              e := None; at_ := Reading |}
           [] (new_box (lit "...") false) [(0, new_box (lit "hi") true)] []
           reachable_update_queued);
    reflexivity.
Defined.



Lemma code_box_step (a : action) (st : state) (id : nat) (box : MessageBox) :
  widgets_inv st ->
  In (id, box) (messages_box st) -> truth (is_code box) = true ->
  In (id, box) (messages_box (step a st)).
Proof.
  intros (Hlt & Hnd & Hlive) Hin Hc.
  assert (Keep_remove : forall id', id' <> id ->
            In (id, box) (remove_box id' (messages_box st))).
  { intros id' Hne. apply remove_box_In. split; [exact Hin | cbn; congruence]. }
  assert (Keep_text : forall id' text, id' <> id ->
            In (id, box) (set_text id' text (messages_box st))).
  { intros id' text Hne. unfold set_text. apply in_map_iff. exists (id, box).
    cbn. apply Nat.eqb_neq in Hne. rewrite Nat.eqb_sym, Hne. auto. }
  assert (Live : forall sid s id', threads st !! sid = Some s ->
                   live_box s = Some id' -> id' <> id).
  { intros sid s id' Hs Hl ->. destruct (Hlive sid s id Hs Hl) as [_ Hp].
    rewrite (Hp box Hin) in Hc. discriminate. }
  destruct a; cbn [step];
    try (match goal with
         | |- In _ (messages_box (worker ?sid ?a ?st0)) =>
             rewrite (proj1 (later_worker_steps_keep_widgets sid a st0
                               ltac:(intros ? E; discriminate E)))
         end; exact Hin).
  - exact Hin.
  - unfold on_send. destruct (truthy (strip (entry st))); [|exact Hin].
    unfold add_message.
    destruct (save_history_widgets
      (scroll_to_bottom (append_box (new_box (strip (entry st)) true) st))) as (Hm & _).
    destruct (save_history _) as [st1 [ex|]]; cbn [fst] in Hm;
      cbn [messages_box start_thread with_threads with_entry]; rewrite Hm;
      cbn; apply in_app_iff; auto.
  - unfold on_delete_clicked.
    destruct (find_box id0 (messages_box st)) as [b'|] eqn:Hf; [|exact Hin].
    destruct (truth (is_code b')) eqn:Hc'; [exact Hin|].
    rewrite save_history_messages. apply Keep_remove. intros ->.
    apply find_box_In in Hf.
    rewrite (same_number_same_box _ _ _ _ Hnd Hf Hin) in Hc'. congruence.
  - unfold dispatch. destruct (idle st) as [|c q]; [exact Hin|].
    destruct c as [|sid|sid|sid n|sid]; cbn [run_closure threads with_idle].
    + exact Hin.
    + destruct (threads st !! sid) as [s|] eqn:Hs; [|exact Hin].
      cbn [messages_box record scroll_to_bottom idle_add with_idle with_messages].
      unfold on_live. destruct (live_box s) as [id'|] eqn:Hl; [|exact Hin].
      apply Keep_text. exact (Live sid s id' Hs Hl).
    + destruct (threads st !! sid) as [s|] eqn:Hs; [|exact Hin].
      cbn [messages_box record]. rewrite save_history_messages.
      cbn [messages_box scroll_to_bottom idle_add with_idle].
      assert (Hin1 : In (id, box)
                (messages_box (with_messages (on_live remove_box s) (with_idle q st)))).
      { cbn. unfold on_live. destruct (live_box s) as [id'|] eqn:Hl; [|exact Hin].
        apply Keep_remove. exact (Live sid s id' Hs Hl). }
      revert Hin1. generalize (with_messages (on_live remove_box s) (with_idle q st)).
      induction (map segment_box (split_segments (full_response s))) as [|b bs IH];
        intros st1 Hin1; [exact Hin1|].
      apply (IH (append_box b st1)). cbn. apply in_app_iff. auto.
    + cbn. apply in_app_iff. auto.
    + destruct (error_text (report_exception sid) (with_idle q st)); [|exact Hin].
      cbn. apply in_app_iff. auto.
  - unfold worker. destruct (threads st !! sid) as [s|]; [|exact Hin].
    destruct (at_ s); try exact Hin. cbn. apply in_app_iff. auto.
Qed.

(** X7.  A code box never leaves the window: from a reachable state, a
    box whose [is_code] is true is still a child after any sequence of user
    events, worker steps and idle dispatches (it has no delete button, and no
    thread has it as its live box). *)
Theorem code_boxes_stay
    (st : state) (id : nat) (box : MessageBox) (acts : list action) :
  reachable st ->
  In (id, box) (messages_box st) -> truth (is_code box) = true ->
  In (id, box) (messages_box (run acts st)).
Proof.
  intros R. apply reachable_widgets in R.
  revert st R. induction acts as [|a acts IH]; intros st W Hin Hc; [exact Hin|].
  rewrite run_cons. apply IH; [apply widgets_step, W | | exact Hc].
  apply code_box_step; assumption.
Qed.

Lemma code_boxes_stay_witness :
  In (0, code_box)
     (messages_box (run [Delete 0; Type_ (lit "hi"); Send; Enter 0] loaded_code)).
Proof.
  apply (code_boxes_stay loaded_code 0 code_box
           [Delete 0; Type_ (lit "hi"); Send; Enter 0] reachable_loaded_code);
    [left; reflexivity | reflexivity].
Defined.

Section Pieces.

Lemma startswith_iff (p s : str) :
  startswith p s = true <-> exists r, s = p ++ r.
Proof.
  split; [apply startswith_app|]. intros [r ->].
  induction p as [|a p IH]; [reflexivity|].
  cbn [app]. rewrite startswith_cons, N.eqb_refl. exact IH.
Qed.

Lemma contains_cons (p : str) (c : char) (s : str) :
  contains p (c :: s) = startswith p (c :: s) || contains p s.
Proof. reflexivity. Qed.

Lemma contains_nil (p : str) : contains p [] = startswith p [].
Proof. cbn. apply orb_false_r. Qed.

Lemma contains_iff (p s : str) :
  contains p s = true <-> exists u w, s = u ++ p ++ w.
Proof.
  split.
  - induction s as [|c s IH].
    + rewrite contains_nil. intros [r Hr]%startswith_iff. exists [], r. exact Hr.
    + rewrite contains_cons. intros [[r Hr]%startswith_iff | H]%orb_true_iff.
      * exists [], r. exact Hr.
      * destruct (IH H) as (u & w & ->). exists (c :: u), w. reflexivity.
  - intros (u & w & ->). induction u as [|c u IH].
    + cbn [app]. destruct (p ++ w) as [|c r] eqn:E.
      * rewrite contains_nil. apply startswith_iff. exists w. auto.
      * rewrite contains_cons. apply orb_true_iff. left.
        apply startswith_iff. exists w. auto.
    + cbn [app]. rewrite contains_cons, IH. apply orb_true_r.
Qed.

Lemma contains_inside (p a t b : str) :
  contains p (a ++ t ++ b) = false -> contains p t = false.
Proof.
  intros H. destruct (contains p t) eqn:E; [|reflexivity].
  apply contains_iff in E as (u & w & ->).
  rewrite <- H. symmetry. apply contains_iff.
  exists (a ++ u), (w ++ b). rewrite <- !app_assoc. reflexivity.
Qed.

Lemma lstrip_suffix (s : str) : exists a, s = a ++ lstrip s.
Proof.
  induction s as [|c s [a IH]]; [exists []; reflexivity|].
  cbn. destruct (isspace c).
  - exists (c :: a). cbn. congruence.
  - exists []. reflexivity.
Qed.

Lemma strip_inside (s : str) : exists a b, s = a ++ strip s ++ b.
Proof.
  destruct (lstrip_suffix s) as [a Ha].
  destruct (lstrip_suffix (rev (lstrip s))) as [b Hb].
  exists a, (rev b). unfold strip, rstrip.
  rewrite <- rev_app_distr, <- Hb, rev_involutive. exact Ha.
Qed.

Lemma lstrip_lstrip (s : str) : lstrip (lstrip s) = lstrip s.
Proof.
  induction s as [|c s IH]; [reflexivity|].
  cbn. destruct (isspace c) eqn:E; [exact IH|]. cbn. rewrite E. reflexivity.
Qed.

Lemma lstrip_prefix (t r w : str) : lstrip t = t -> t = r ++ w -> lstrip r = r.
Proof.
  intros Ht ->. destruct r as [|c r]; [reflexivity|].
  cbn in *. destruct (isspace c); [|reflexivity].
  exfalso. destruct (lstrip_suffix (r ++ w)) as [a Ha].
  rewrite Ht in Ha. apply (f_equal (@length _)) in Ha.
  rewrite !length_app in Ha. cbn [length] in Ha. rewrite ?length_app in Ha. lia.
Qed.

(** [strip] leaves nothing for a second [strip]. *)
Lemma strip_strip (s : str) : strip (strip s) = strip s.
Proof.
  unfold strip at 2 3. unfold rstrip.
  set (t := lstrip s). set (u := lstrip (rev t)).
  assert (Hu : lstrip u = u) by apply lstrip_lstrip.
  assert (Ht : lstrip t = t) by apply lstrip_lstrip.
  destruct (lstrip_suffix (rev t)) as [a Ha]. fold u in Ha.
  assert (Hr : lstrip (rev u) = rev u).
  { apply (lstrip_prefix t (rev u) (rev a) Ht).
    rewrite <- rev_app_distr, <- Ha, rev_involutive. reflexivity. }
  unfold strip, rstrip. rewrite Hr, rev_involutive, Hu. reflexivity.
Qed.

(** No piece of a split holds the separator.  [cur] (reversed) is the
    piece under way: no occurrence of the separator starts inside it. *)
Lemma split_from_pieces (sep : str) (n : nat) :
  sep <> [] ->
  forall s cur, length s <= n ->
  (forall u v, rev cur = u ++ v -> v <> [] -> startswith sep (v ++ s) = false) ->
  Forall (fun piece => contains sep piece = false) (split_from sep 0 cur s).
Proof.
  intros Hsep.
  assert (Piece : forall s cur,
    (forall u v, rev cur = u ++ v -> v <> [] -> startswith sep (v ++ s) = false) ->
    contains sep (rev cur) = false).
  { intros s cur Hcur. destruct (contains sep (rev cur)) eqn:E; [|reflexivity].
    apply contains_iff in E as (u & w & E).
    destruct sep as [|a sep']; [congruence|].
    rewrite <- (Hcur u ((a :: sep') ++ w) E ltac:(discriminate)).
    symmetry. apply startswith_iff. exists (w ++ s). rewrite <- app_assoc. reflexivity. }
  induction n as [|n IH]; intros s cur Hn Hcur.
  - destruct s; [|cbn in Hn; lia]. cbn. constructor; [|constructor].
    exact (Piece [] cur Hcur).
  - destruct s as [|c s].
    + cbn. constructor; [|constructor]. exact (Piece [] cur Hcur).
    + cbn in Hn. rewrite split_from_cons. destruct (startswith _ _) eqn:E.
      * constructor; [exact (Piece (c :: s) cur Hcur)|].
        destruct (startswith_app _ _ E) as [r Hr].
        destruct sep as [|a sep']; [congruence|].
        injection Hr as -> ->.
        replace (length (a :: sep') - 1) with (length sep') by (cbn; lia).
        rewrite split_from_skip. apply IH.
        -- rewrite length_app in Hn. lia.
        -- intros u v Huv Hv. destruct u; destruct v; cbn in Huv; congruence.
      * apply IH; [lia|].
        intros u v Huv Hv. cbn [rev] in Huv.
        destruct v as [|x v' _] using rev_ind; [congruence|].
        rewrite app_assoc in Huv. apply app_inj_tail in Huv as [Huv ->].
        rewrite <- app_assoc. cbn [app].
        destruct v' as [|y v'']; [exact E|].
        apply (Hcur u (y :: v'') Huv). discriminate.
Qed.

Lemma split_pieces (sep s : str) :
  sep <> [] -> Forall (fun piece => contains sep piece = false) (split sep s).
Proof.
  intros Hsep. apply (split_from_pieces sep (length s) Hsep); [lia|].
  intros u v Huv Hv. destruct u; destruct v; cbn in Huv; congruence.
Qed.

Lemma split_from_whole (sep cur s : str) :
  contains sep s = false -> split_from sep 0 cur s = [rev cur ++ s].
Proof.
  revert cur. induction s as [|c s IH]; intros cur H.
  - cbn. rewrite app_nil_r. reflexivity.
  - rewrite contains_cons in H. apply orb_false_iff in H as [H1 H2].
    rewrite split_from_cons, H1, IH by exact H2.
    cbn. rewrite <- app_assoc. reflexivity.
Qed.

Lemma create_boxes_clean (is_code : bool) (parts : list str) :
  Forall (fun piece => contains fence piece = false) parts ->
  Forall (fun seg => seg.1 <> [] /\ strip seg.1 = seg.1
                     /\ contains fence seg.1 = false)
         (create_boxes is_code parts).
Proof.
  revert is_code. induction parts as [|part rest IH]; intros is_code H; cbn.
  - constructor.
  - apply List.Forall_cons_iff in H as [Hp Hr].
    destruct (truthy (strip part)) eqn:E; [|auto].
    constructor; [|auto]. cbn. repeat split.
    + destruct (strip part); [discriminate | congruence].
    + apply strip_strip.
    + destruct (strip_inside part) as (a & b & Hab).
      apply (contains_inside fence a (strip part) b). rewrite <- Hab. exact Hp.
Qed.

End Pieces.

(** X8.  Every text [split_and_create_boxes] puts into a box is non-empty,
    has no blank at either end, and holds no fence. *)
Theorem segments_are_clean (text : str) :
  Forall (fun seg => seg.1 <> [] /\ strip seg.1 = seg.1
                     /\ contains fence seg.1 = false)
         (split_segments text).
Proof.
  apply create_boxes_clean. apply split_pieces. discriminate.
Qed.

(** X9.  The boxes of a reply alternate between prose and code, the first
    being prose: the flag flips with every box that is created. *)
Theorem segment_roles_alternate (text : str) :
  map snd (split_segments text) = roles false (length (split_segments text)).
Proof. apply create_boxes_roles. Qed.

(** X10.  A reply without a fence that is not blank gives one box: the
    stripped reply, as prose. *)
Theorem reply_without_fence_is_one_prose_box (text : str) :
  contains fence text = false -> strip text <> [] ->
  split_segments text = [(strip text, false)].
Proof.
  intros Hf Hs. unfold split_segments, split.
  rewrite split_from_whole by exact Hf. cbn [rev app create_boxes].
  destruct (strip text); [congruence | reflexivity].
Qed.

Lemma reply_without_fence_is_one_prose_box_witness :
  split_segments (lit " hi ") = [(strip (lit " hi "), false)].
Proof.
  apply (reply_without_fence_is_one_prose_box (lit " hi "));
    [reflexivity | vm_compute; discriminate].
Defined.


Section Endings.

Variable sid : nat.

Lemma terminals_app (q1 q2 : list closure) :
  terminals sid (q1 ++ q2) = terminals sid q1 ++ terminals sid q2.
Proof. apply List.filter_app. Qed.

Lemma finals_app (tr1 tr2 : list call) :
  finals sid (tr1 ++ tr2) = finals sid tr1 ++ finals sid tr2.
Proof. apply List.filter_app. Qed.

Lemma terminals_nil_In (q : list closure) (c : closure) :
  terminals sid q = [] -> In c q -> is_terminal sid c = false.
Proof.
  intros Hq Hin. destruct (is_terminal sid c) eqn:E; [|reflexivity].
  assert (Hc : In c (terminals sid q)) by (apply filter_In; auto).
  rewrite Hq in Hc. destruct Hc.
Qed.

Lemma finals_nil_In (tr : list call) (c : call) :
  finals sid tr = [] -> In c tr -> is_final sid c = false.
Proof.
  intros Hq Hin. destruct (is_final sid c) eqn:E; [|reflexivity].
  assert (Hc : In c (finals sid tr)) by (apply filter_In; auto).
  rewrite Hq in Hc. destruct Hc.
Qed.

Lemma end_idle_add (p : pc) (q : list closure) (tr : list call) (c : closure) :
  c <> update sid -> is_terminal sid c = false ->
  ending sid p q tr -> ending sid p (q ++ [c]) tr.
Proof.
  intros Hu Ht [A B C D E].
  assert (Et : terminals sid (q ++ [c]) = terminals sid q).
  { rewrite terminals_app. cbn. rewrite Ht. apply app_nil_r. }
  split.
  - rewrite Et. exact A.
  - rewrite Et. exact B.
  - intros q1 c' q2 [(q2' & -> & ->)|(_ & -> & _)]%snoc_split Hc'; [|congruence].
    intros [H|[H|[]]]%in_app_iff; [exact (C q1 c' q2' eq_refl Hc' H) | congruence].
  - intros Hf [H|[H|[]]]%in_app_iff; [exact (D Hf H) | congruence].
  - exact E.
Qed.

Lemma end_pop (p : pc) (q : list closure) (tr : list call) (c : closure) :
  ending sid p (c :: q) tr -> ending sid p q tr.
Proof.
  intros [A B C D E].
  assert (Hle : length (terminals sid q) <= length (terminals sid (c :: q))).
  { unfold terminals. cbn [List.filter]. destruct (is_terminal sid c); cbn [length]; lia. }
  split.
  - intros H1 H2. destruct (A H1 H2) as [A1 A2]. split; [|exact A2].
    unfold terminals in *. cbn [List.filter] in A1.
    destruct (is_terminal sid c); [discriminate | exact A1].
  - lia.
  - intros q1 c' q2 ->. exact (C (c :: q1) c' q2 eq_refl).
  - intros Hf H. apply (D Hf). right. exact H.
  - exact E.
Qed.

Lemma end_record (p : pc) (q : list closure) (tr : list call) (c : call) :
  is_final sid c = false -> chunk_texts sid [c] = [] ->
  ending sid p q tr -> ending sid p q (tr ++ [c]).
Proof.
  intros Hf Hc [A B C D E].
  assert (Ef : finals sid (tr ++ [c]) = finals sid tr).
  { rewrite finals_app. cbn. rewrite Hf. apply app_nil_r. }
  split.
  - rewrite Ef. exact A.
  - rewrite Ef. exact B.
  - exact C.
  - rewrite Ef. exact D.
  - intros pre c' post [(post' & -> & ->)|(_ & -> & _)]%snoc_split Hc'; [|congruence].
    rewrite chunk_texts_app, (E pre c' post' eq_refl Hc'), Hc. reflexivity.
Qed.

(** [update] runs. *)
Lemma end_update (p : pc) (q : list closure) (tr : list call) (text : str) :
  ending sid p (update sid :: q) tr ->
  ending sid p q (tr ++ [OnChunk sid text]).
Proof.
  intros H. pose proof H as [A B C D E]. apply end_pop in H as [A' B' C' D' E'].
  assert (Hf : finals sid tr = []).
  { destruct (finals sid tr) eqn:Ef; [reflexivity|].
    exfalso. apply D; [discriminate | left; reflexivity]. }
  assert (Ef : finals sid (tr ++ [OnChunk sid text]) = finals sid tr).
  { rewrite finals_app. cbn. apply app_nil_r. }
  split.
  - rewrite Ef. exact A'.
  - rewrite Ef. exact B'.
  - exact C'.
  - rewrite Ef. exact D'.
  - intros pre c post [(post' & -> & ->)|(_ & -> & _)]%snoc_split Hc; [|discriminate].
    exfalso. rewrite finals_app in Hf. cbn in Hf. rewrite Hc in Hf.
    destruct (finals sid pre); discriminate.
Qed.

(** A terminal closure runs and makes its callback. *)
Lemma end_final (p : pc) (q : list closure) (tr : list call)
    (c : closure) (f : call) :
  is_terminal sid c = true -> is_final sid f = true ->
  ending sid p (c :: q) tr -> ending sid p q (tr ++ [f]).
Proof.
  intros Hc Hf [A B C D E].
  assert (Ec : terminals sid (c :: q) = c :: terminals sid q).
  { unfold terminals. cbn [List.filter]. rewrite Hc. reflexivity. }
  rewrite Ec in B. cbn [length] in B.
  assert (Hq : terminals sid q = [])
    by (destruct (terminals sid q); [reflexivity | cbn [length] in B; lia]).
  assert (Ht : finals sid tr = [])
    by (destruct (finals sid tr); [reflexivity | cbn [length] in B; lia]).
  assert (Ef : finals sid (tr ++ [f]) = [f]).
  { rewrite finals_app, Ht. cbn. rewrite Hf. reflexivity. }
  split.
  - intros H1 H2. destruct (A H1 H2) as [A1 _]. rewrite Ec in A1. discriminate.
  - rewrite Hq, Ef. cbn. lia.
  - intros q1 c' q2 ->. exact (C (c :: q1) c' q2 eq_refl).
  - intros _. exact (C [] c q eq_refl Hc).
  - intros pre c' post [(post' & -> & ->)|(-> & _ & _)]%snoc_split Hc'; [|reflexivity].
    exfalso. rewrite finals_app in Ht. cbn in Ht. rewrite Hc' in Ht.
    destruct (finals sid pre); discriminate.
Qed.

Lemma end_goto (p p' : pc) (q : list closure) (tr : list call) :
  (p' <> Handling -> p' <> Exited -> p <> Handling /\ p <> Exited) ->
  ending sid p q tr -> ending sid p' q tr.
Proof.
  intros Hp [A B C D E]. split; try assumption.
  intros H1 H2. destruct (Hp H1 H2) as [H3 H4]. exact (A H3 H4).
Qed.

(** The thread posts its terminal closure. *)
Lemma end_post_terminal (p p' : pc) (q : list closure) (tr : list call) (c : closure) :
  p <> Handling -> p <> Exited -> p' = Handling \/ p' = Exited ->
  is_terminal sid c = true ->
  ending sid p q tr -> ending sid p' (q ++ [c]) tr.
Proof.
  intros H1 H2 Hp' Hc [A B C D E]. destruct (A H1 H2) as [Hq Ht].
  split.
  - intros H3 H4. destruct Hp'; contradiction.
  - rewrite terminals_app, Hq, Ht. cbn. rewrite Hc. cbn. lia.
  - intros q1 c' q2 [(q2' & -> & ->)|(-> & _ & _)]%snoc_split Hc'; [|intros []].
    exfalso. rewrite (terminals_nil_In _ c' Hq) in Hc'; [discriminate|].
    apply in_app_iff. right. left. reflexivity.
  - intros Hf. contradiction.
  - intros pre c' post -> Hc'. exfalso.
    rewrite (finals_nil_In _ c' Ht) in Hc'; [discriminate|].
    apply in_app_iff. right. left. reflexivity.
Qed.

(** The thread posts an update. *)
Lemma end_post_update (p p' : pc) (q : list closure) (tr : list call) :
  p <> Handling -> p <> Exited ->
  ending sid p q tr -> ending sid p' (q ++ [update sid]) tr.
Proof.
  intros H1 H2 [A B C D E]. destruct (A H1 H2) as [Hq Ht].
  assert (Et : terminals sid (q ++ [update sid]) = []).
  { rewrite terminals_app, Hq. reflexivity. }
  split.
  - intros _ _. auto.
  - rewrite Et, Ht. cbn. lia.
  - intros q1 c' q2 Hq' Hc'. exfalso.
    rewrite (terminals_nil_In _ c' Et) in Hc'; [discriminate|].
    rewrite Hq'. apply in_app_iff. right. left. reflexivity.
  - intros Hf. contradiction.
  - intros pre c' post -> Hc'. exfalso.
    rewrite (finals_nil_In _ c' Ht) in Hc'; [discriminate|].
    apply in_app_iff. right. left. reflexivity.
Qed.

End Endings.

Section EndingSteps.

Lemma ending_transfer (st' : state) (sid : nat) (p : pc)
    (q : list closure) (tr : list call) :
  pc_at st' sid = p -> idle st' = q -> calls st' = tr ->
  ending sid p q tr -> ending_view st' sid.
Proof. intros <- <- <- H. exact H. Qed.

Lemma ending_scroll (st : state) (sid : nat) :
  ending_view st sid -> ending_view (scroll_to_bottom st) sid.
Proof. intros H. apply end_idle_add; [discriminate | reflexivity | exact H]. Qed.

Lemma ending_save_history (st : state) (sid : nat) :
  ending_view st sid -> ending_view (fst (save_history st)) sid.
Proof.
  intros H. destruct (save_history_core st) as (Ht & Hq & Hc).
  eapply ending_transfer; [apply pc_at_same; exact Ht | exact Hq | exact Hc | exact H].
Qed.

Lemma ending_add_message (text : str) (user : bool) (st : state) (sid : nat) :
  ending_view st sid -> ending_view (fst (add_message text user st)) sid.
Proof.
  intros H. unfold add_message. destruct user.
  - apply ending_save_history, ending_scroll. exact H.
  - apply ending_scroll. exact H.
Qed.

Lemma ending_on_send (st : state) (sid : nat) :
  ending_view st sid -> ending_view (on_send st) sid.
Proof.
  intros H. unfold on_send.
  destruct (truthy (strip (entry st))); [|exact H].
  pose proof (ending_add_message (strip (entry st)) true st sid H) as H'.
  destruct (add_message (strip (entry st)) true st) as [st1 [ex|]]; [exact H'|].
  cbn [fst] in H'.
  destruct (start_thread_lookup (strip (entry st)) (with_entry [] st1) sid) as [Hp _].
  eapply ending_transfer; [exact Hp | reflexivity | reflexivity | exact H'].
Qed.

Lemma ending_on_delete_clicked (id : nat) (st : state) (sid : nat) :
  ending_view st sid -> ending_view (on_delete_clicked id st) sid.
Proof.
  intros H. unfold on_delete_clicked.
  destruct (find_box id (messages_box st)) as [box|]; [|exact H].
  destruct (truth (is_code box)); [exact H|].
  apply ending_save_history. exact H.
Qed.

Lemma is_terminal_other (sid sid' : nat) (c : closure) :
  closure_sid c = Some sid' -> sid' <> sid -> is_terminal sid c = false.
Proof.
  intros Hc Hne. destruct c; cbn in *; try reflexivity;
    injection Hc as ->; apply Nat.eqb_neq; exact Hne.
Qed.

Lemma is_final_other (sid sid' : nat) (text : str) :
  sid' <> sid ->
  is_final sid (OnDone sid' text) = false /\ is_final sid (OnError sid' text) = false.
Proof. intros Hne. cbn. apply Nat.eqb_neq in Hne. rewrite Hne. auto. Qed.

(** The main loop runs a closure of thread [sid'] that makes the callback
    [f], or makes none. *)
Lemma ending_ran (st st' : state) (sid : nat) (c : closure) (q : list closure)
    (f : option call) :
  idle st = c :: q ->
  threads st' = threads st -> idle st' = q ++ match f with Some _ => [scroll] | None => [] end ->
  calls st' = calls st ++ match f with Some x => [x] | None => [] end ->
  match f with
  | Some (OnChunk sid' _) => c = update sid'
  | Some (OnDone sid' _) | Some (OnError sid' _) => is_terminal sid' c = true
  | None => True
  end ->
  ending_view st sid -> ending_view st' sid.
Proof.
  intros Hq Ht Hq' Hc Hf H. unfold ending_view in H. rewrite Hq in H.
  eapply ending_transfer; [apply pc_at_same; exact Ht | exact Hq' | exact Hc |].
  destruct f as [[sid' text|sid' text|sid' text]|].
  - subst c. apply end_idle_add; [discriminate | reflexivity |].
    destruct (Nat.eq_dec sid' sid) as [->|Hne].
    + apply end_update. exact H.
    + apply end_record; [reflexivity | apply chunk_texts_other; exact Hne |].
      apply end_pop in H. exact H.
  - apply end_idle_add; [discriminate | reflexivity |].
    destruct (Nat.eq_dec sid' sid) as [->|Hne].
    + apply (end_final sid _ q _ c); [exact Hf | cbn; apply Nat.eqb_refl | exact H].
    + apply end_record; [apply is_final_other; exact Hne | reflexivity |].
      apply end_pop in H. exact H.
  - apply end_idle_add; [discriminate | reflexivity |].
    destruct (Nat.eq_dec sid' sid) as [->|Hne].
    + apply (end_final sid _ q _ c); [exact Hf | cbn; apply Nat.eqb_refl | exact H].
    + apply end_record; [apply is_final_other; exact Hne | reflexivity |].
      apply end_pop in H. exact H.
  - rewrite !app_nil_r. apply end_pop in H. exact H.
Qed.

Lemma ending_dispatch (st : state) (sid : nat) :
  ending_view st sid -> ending_view (dispatch st) sid.
Proof.
  intros H. unfold dispatch. destruct (idle st) as [|c q] eqn:Hq; [exact H|].
  destruct c as [|sid'|sid'|sid' n|sid']; cbn [run_closure threads with_idle].
  - apply (ending_ran st _ sid scroll q None Hq); auto;
      cbn; rewrite app_nil_r; reflexivity.
  - destruct (threads st !! sid') as [s|].
    + apply (ending_ran st _ sid (update sid') q
               (Some (OnChunk sid' (full_response s))) Hq); auto.
    + apply (ending_ran st _ sid (update sid') q None Hq); auto;
        cbn; rewrite app_nil_r; reflexivity.
  - destruct (threads st !! sid') as [s|].
    + set (st1 := append_boxes _ _).
      destruct (append_boxes_core
                  (map segment_box (split_segments (full_response s)))
                  (with_messages (on_live remove_box s) (with_idle q st)))
        as (Ht1 & Hq1 & Hc1). fold st1 in Ht1, Hq1, Hc1.
      destruct (save_history_core (scroll_to_bottom st1)) as (Ht2 & Hq2 & Hc2).
      cbn [threads idle calls scroll_to_bottom idle_add with_idle] in Ht2, Hq2, Hc2.
      rewrite Ht1 in Ht2. rewrite Hq1 in Hq2. rewrite Hc1 in Hc2.
      cbn [threads idle calls with_messages with_idle] in Ht2, Hq2, Hc2.
      apply (ending_ran st _ sid (split_and_create_boxes sid') q
               (Some (OnDone sid' (full_response s))) Hq);
        [exact Ht2 | exact Hq2 | cbn [calls record]; rewrite Hc2; reflexivity
        | cbn; apply Nat.eqb_refl | exact H].
    + apply (ending_ran st _ sid (split_and_create_boxes sid') q None Hq); auto;
        cbn; rewrite app_nil_r; reflexivity.
  - apply (ending_ran st _ sid (report_status sid' n) q
             (Some (OnError sid' (lit "Error: HTTP " ++ str_of_int n))) Hq); auto.
    cbn. apply Nat.eqb_refl.
  - destruct (error_text (report_exception sid') (with_idle q st)) as [text|].
    + apply (ending_ran st _ sid (report_exception sid') q
               (Some (OnError sid' text)) Hq); auto.
      cbn. apply Nat.eqb_refl.
    + apply (ending_ran st _ sid (report_exception sid') q None Hq); auto;
        cbn; rewrite app_nil_r; reflexivity.
Qed.

(** A step of thread [sid'] that takes it to [p'] and posts [posted]. *)
Lemma ending_thread (st st' : state) (sid sid' : nat) (s s' : session)
    (posted : list closure) :
  threads st !! sid' = Some s ->
  threads st' = <[sid' := s']> (threads st) ->
  idle st' = idle st ++ posted -> calls st' = calls st ->
  (posted = [] /\ (at_ s' <> Handling -> at_ s' <> Exited ->
                   at_ s <> Handling /\ at_ s <> Exited))
  \/ (posted = [scroll] /\ at_ s = Created /\ at_ s' = Requesting)
  \/ (posted = [update sid'] /\ at_ s = Appended /\ at_ s' = Reading)
  \/ (exists c, posted = [c] /\ is_terminal sid' c = true
                /\ at_ s <> Handling /\ at_ s <> Exited
                /\ (at_ s' = Handling \/ at_ s' = Exited)) ->
  ending_view st sid -> ending_view st' sid.
Proof.
  intros Hs Ht Hq Hc Hcase H.
  destruct (Nat.eq_dec sid sid') as [->|Hne].
  - assert (Hp : pc_at st sid' = at_ s) by (unfold pc_at; rewrite Hs; reflexivity).
    assert (Hp' : pc_at st' sid' = at_ s').
    { unfold pc_at. rewrite Ht.
      rewrite list_lookup_insert_eq by (eapply lookup_lt_Some; exact Hs). reflexivity. }
    unfold ending_view in H. rewrite Hp in H.
    eapply ending_transfer; [exact Hp' | exact Hq | exact Hc |].
    destruct Hcase as [[-> Hg]|[(-> & Hg1 & Hg2)|[(-> & Hg1 & Hg2)|(c & -> & Hc' & H1 & H2 & H3)]]].
    + rewrite app_nil_r. eapply end_goto; [exact Hg | exact H].
    + apply end_idle_add; [discriminate | reflexivity |].
      eapply end_goto; [|exact H]. rewrite Hg1, Hg2. intros _ _. split; discriminate.
    + apply (end_post_update sid' (at_ s)); [rewrite Hg1; discriminate
                                             | rewrite Hg1; discriminate | exact H].
    + apply (end_post_terminal sid' (at_ s)); assumption.
  - assert (Hp' : pc_at st' sid = pc_at st sid).
    { unfold pc_at. rewrite Ht, list_lookup_insert_ne by congruence. reflexivity. }
    eapply ending_transfer; [exact Hp' | exact Hq | exact Hc |].
    destruct Hcase as [[-> Hg]|[(-> & Hg1 & Hg2)|[(-> & Hg1 & Hg2)|(c & -> & Hc' & _)]]].
    + rewrite app_nil_r. exact H.
    + apply end_idle_add; [discriminate | reflexivity | exact H].
    + apply end_idle_add; [congruence | reflexivity | exact H].
    + apply end_idle_add; [| | exact H].
      * intros ->. discriminate.
      * destruct c; try discriminate; cbn in Hc' |- *;
          apply Nat.eqb_eq in Hc'; subst; apply Nat.eqb_neq; congruence.
Qed.

Lemma ending_worker (sid' : nat) (a : action) (st : state) (sid : nat) :
  ending_view st sid -> ending_view (worker sid' a st) sid.
Proof.
  intros H. unfold worker.
  destruct (threads st !! sid') as [s|] eqn:Hs; [|exact H].
  assert (Handle : forall ex, at_ s = Requesting \/ at_ s = Reading ->
            ending_view (handle sid' s ex st) sid).
  { intros ex Hat.
    eapply (ending_thread st _ sid sid' s _ [report_exception sid'] Hs);
      [reflexivity | reflexivity | reflexivity | | exact H].
    right. right. right. exists (report_exception sid'). cbn.
    rewrite Nat.eqb_refl. destruct Hat as [-> | ->]; repeat split; auto; discriminate. }
  destruct a as [| | | | |? r|? ev| |]; try exact H;
    destruct (at_ s) eqn:Hat; try exact H.
  - eapply (ending_thread st _ sid sid' s _ [scroll] Hs);
      [reflexivity | reflexivity | reflexivity | | exact H]. right. left. auto.
  - unfold answer. destruct r as [ex|n]; [apply Handle; auto|].
    destruct (ok n).
    + eapply (ending_thread st _ sid sid' s _ [] Hs);
      [reflexivity | cbn; rewrite app_nil_r; reflexivity | reflexivity | | exact H].
      left. split; [reflexivity|]. rewrite Hat. intros _ _. split; discriminate.
    + eapply (ending_thread st _ sid sid' s _ [report_status sid' n] Hs);
      [reflexivity | reflexivity | reflexivity | | exact H].
      right. right. right. exists (report_status sid' n). cbn.
      rewrite Nat.eqb_refl, Hat. repeat split; auto; discriminate.
  - unfold receive. destruct ev as [[|ex|ch]| |ex].
    + exact H.
    + destruct (is_JSONDecodeError ex); [exact H | apply Handle; auto].
    + destruct (chunk_text ch) as [[text|]|ex]; [| exact H | apply Handle; auto].
      eapply (ending_thread st _ sid sid' s _ [] Hs);
      [reflexivity | cbn; rewrite app_nil_r; reflexivity | reflexivity | | exact H].
      left. split; [reflexivity|]. rewrite Hat. intros _ _. split; discriminate.
    + eapply (ending_thread st _ sid sid' s _ [split_and_create_boxes sid'] Hs);
      [reflexivity | reflexivity | reflexivity | | exact H].
      right. right. right. exists (split_and_create_boxes sid'). cbn.
      rewrite Nat.eqb_refl, Hat. repeat split; auto; discriminate.
    + apply Handle; auto.
  - eapply (ending_thread st _ sid sid' s _ [update sid'] Hs);
      [reflexivity | reflexivity | reflexivity | | exact H]. right. right. left. auto.
  - eapply (ending_thread st _ sid sid' s _ [] Hs);
      [reflexivity | cbn; rewrite app_nil_r; reflexivity | reflexivity | | exact H].
    left. split; [reflexivity|]. cbn. intros _ E. congruence.
Qed.

Lemma ending_step (a : action) (st : state) (sid : nat) :
  ending_view st sid -> ending_view (step a st) sid.
Proof.
  intros H. destruct a; cbn [step];
    [ exact H | apply ending_on_send | apply ending_on_delete_clicked
    | apply ending_dispatch | apply ending_worker | apply ending_worker
    | apply ending_worker | apply ending_worker | apply ending_worker ];
    exact H.
Qed.

Lemma ending_blank (d : file) (sid : nat) : ending_view (blank d) sid.
Proof.
  split; cbn; auto.
  - intros q1 c q2 H. destruct q1; discriminate.
  - intros pre c post H. destruct pre; discriminate.
Qed.

Lemma ending_load_history (st : state) (sid : nat) :
  ending_view st sid -> ending_view (fst (load_history st)) sid.
Proof.
  intros H. unfold load_history.
  destruct (disk st) as [| | |j]; try exact H.
  destruct (iterate j) as [msgs|ex]; [|exact H].
  destruct (load_boxes_core msgs st) as (Ht & Hq & Hc).
  assert (H1 : ending_view (fst (load_boxes msgs st)) sid).
  { eapply ending_transfer; [apply pc_at_same; exact Ht | exact Hq | exact Hc | exact H]. }
  destruct (load_boxes msgs st) as [st1 [ex|]]; cbn [fst] in *; [exact H1|].
  apply ending_scroll. exact H1.
Qed.

Lemma reachable_ending (st : state) (sid : nat) : reachable st -> ending_view st sid.
Proof.
  intros (d & st0 & acts & Hst & <-).
  assert (H0 : ending_view st0 sid).
  { unfold started in Hst.
    pose proof (ending_load_history (blank d) sid (ending_blank d sid)) as H.
    destruct (load_history (blank d)) as [st1 [ex|]]; [discriminate|].
    injection Hst as <-. exact H. }
  clear Hst. revert st0 H0. induction acts as [|a acts IH]; intros st0 H0; [exact H0|].
  rewrite run_cons. apply IH, ending_step, H0.
Qed.

End EndingSteps.

(** X11.  In every reachable state each thread has made one final callback
    (the split or an error message) at most, and nothing of that thread is
    shown after it: no [update] of the thread runs behind its final
    callback. *)
Theorem one_final_callback (st : state) (sid : nat) :
  reachable st ->
  length (finals sid (calls st)) <= 1
  /\ (forall pre c post, calls st = pre ++ c :: post -> is_final sid c = true ->
        chunk_texts sid post = []).
Proof.
  intros R. destruct (reachable_ending st sid R) as [_ B _ _ E].
  split; [lia | exact E].
Qed.

Lemma one_final_callback_witness :
  length (finals 0 (calls shown)) <= 1
  /\ (forall pre c post, calls shown = pre ++ c :: post -> is_final 0 c = true ->
        chunk_texts 0 post = []).
Proof. apply (one_final_callback shown 0), reachable_shown. Defined.

Section Loading.


Lemma load_boxes_stops (good : list json) (bad : json) (rest : list json)
    (boxes : list MessageBox) (ex : exn) (st : state) :
  Forall2 (fun msg box => box_of_entry msg = Ok box) good boxes ->
  box_of_entry bad = Raises ex ->
  exists st',
    load_boxes (good ++ bad :: rest) st = (st', Some ex)
    /\ map snd (messages_box st') = map snd (messages_box st) ++ boxes
    /\ disk st' = disk st /\ idle st' = idle st.
Proof.
  intros F Hbad. revert st.
  induction F as [|msg box good boxes E F IH]; intros st; cbn [app load_boxes].
  - rewrite Hbad. exists st. rewrite app_nil_r. auto.
  - rewrite E. destruct (IH (append_box box st)) as (st' & L & M & D & I).
    exists st'. split; [exact L|]. rewrite M. cbn [append_box messages_box].
    rewrite map_app, <- app_assoc. auto.
Qed.


End Loading.



(** X13.  [load_history] stops at the first element it cannot turn into a
    box: the exception leaves the function, the boxes of the elements before
    it stay in the window, the elements behind it are not looked at, and no
    scroll is requested. *)
Theorem load_stops_at_bad_entry (st : state) (good : list json) (bad : json)
    (rest : list json) (boxes : list MessageBox) (ex : exn) :
  disk st = Document (JArr (good ++ bad :: rest)) ->
  Forall2 (fun msg box => box_of_entry msg = Ok box) good boxes ->
  box_of_entry bad = Raises ex ->
  exists st',
    load_history st = (st', Some ex)
    /\ map snd (messages_box st') = map snd (messages_box st) ++ boxes
    /\ idle st' = idle st.
Proof.
  intros D F Hbad. unfold load_history. rewrite D. cbn [iterate].
  destruct (load_boxes_stops good bad rest boxes ex st F Hbad) as (st' & L & M & _ & I).
  rewrite L. exists st'. auto.
Qed.

Lemma load_stops_at_bad_entry_witness :
  exists st',
    load_history (blank broken_history)
    = (st', Some (Exn TypeError (lit "'int' object is not subscriptable")))
    /\ map snd (messages_box st') = map snd (messages_box (blank broken_history)) ++ [code_box]
    /\ idle st' = idle (blank broken_history).
Proof.
  apply (load_stops_at_bad_entry (blank broken_history) [code_entry] (JNum 5)
           [code_entry] [code_box]
           (Exn TypeError (lit "'int' object is not subscriptable")));
    [reflexivity | repeat constructor | reflexivity].
Defined.



(** X15.  [setup_position] puts the window at the bottom centre of the
    primary monitor: its lower edge is the monitor's lower edge, and the free
    space on its left and on its right differ by one pixel at most (the left
    is the smaller). *)
Theorem window_is_bottom_centred (geometry : Gdk.Rectangle) (w h x y : Z) :
  setup_position (Some geometry) w h = Some (x, y) ->
  (y + h = Gdk.y geometry + Gdk.height geometry
   /\ x - Gdk.x geometry <= Gdk.x geometry + Gdk.width geometry - (x + w)
   /\ Gdk.x geometry + Gdk.width geometry - (x + w) <= x - Gdk.x geometry + 1)%Z.
Proof.
  unfold setup_position. intros [= <- <-].
  pose proof (Z.div_mod (Gdk.width geometry - w) 2 ltac:(lia)) as E.
  pose proof (Z.mod_pos_bound (Gdk.width geometry - w) 2 ltac:(lia)) as B.
  lia.
Qed.

Lemma window_is_bottom_centred_witness :
  (480 + 600 = Gdk.y full_hd + Gdk.height full_hd
   /\ 560 - Gdk.x full_hd <= Gdk.x full_hd + Gdk.width full_hd - (560 + 800)
   /\ Gdk.x full_hd + Gdk.width full_hd - (560 + 800) <= 560 - Gdk.x full_hd + 1)%Z.
Proof. apply (window_is_bottom_centred full_hd 800 600 560 480). reflexivity. Defined.

Section Buttons.

Lemma lstrip_blanks (ws s : str) :
  forallb isspace ws = true -> lstrip (ws ++ s) = lstrip s.
Proof.
  induction ws as [|c ws IH]; [reflexivity|]. cbn [forallb app lstrip].
  intros [-> H]%andb_prop. apply IH, H.
Qed.

End Buttons.

(** X16.  The buttons of a box by its kind: the delete button is on every
    box that is not code and on no code box, the edit button on user messages
    only, the read button on assistant prose only, the run button on code
    that does not start with [import ], [def ] or [class ]; the copy button
    is on code and on assistant prose; no button comes twice; and blanks
    before the text do not change the buttons. *)
Theorem buttons_by_kind (text : str) (user code : json) :
  (In delete_btn (buttons text user code) <-> truth code = false)
  /\ (In edit_btn (buttons text user code) <-> truth code = false /\ truth user = true)
  /\ (In read_btn (buttons text user code) <-> truth code = false /\ truth user = false)
  /\ (In copy_btn (buttons text user code) <-> truth code = true \/ truth user = false)
  /\ (In run_btn (buttons text user code) <->
        truth code = true
        /\ startswith_any [lit "import "; lit "def "; lit "class "] (strip text) = false)
  /\ List.NoDup (buttons text user code)
  /\ (forall ws : str, forallb isspace ws = true ->
        buttons (ws ++ text) user code = buttons text user code).
Proof.
  unfold buttons.
  split; [|split; [|split; [|split; [|split; [|split]]]]].
  1-5: destruct (truth code), (truth user); try destruct (startswith_any _ _);
    cbn; intuition (try discriminate; try congruence).
  - destruct (truth code), (truth user); try destruct (startswith_any _ _); cbn;
      repeat (constructor; cbn); intuition (try discriminate).
  - intros ws H. unfold strip. rewrite (lstrip_blanks ws text H). reflexivity.
Qed.

Section Progress.

Import Whisper.

Lemma lit_String (a : ascii) (s : string) : lit (String a s) = N_of_ascii a :: lit s.
Proof. reflexivity. Qed.

Lemma lit_uint_numeral (d : Decimal.uint) :
  Forall (fun c => is_numeral c = true) (lit (NilEmpty.string_of_uint d)).
Proof.
  induction d; cbn [NilEmpty.string_of_uint]; rewrite ?lit_String;
    constructor; auto; reflexivity.
Qed.

Lemma str_of_int_numeral (n : Z) :
  exists c r, str_of_int n = c :: r
              /\ is_numeral c = true /\ Forall (fun c => is_numeral c = true) r.
Proof.
  unfold str_of_int.
  assert (U : forall d, exists c r,
             lit (NilZero.string_of_uint d) = c :: r
             /\ is_numeral c = true /\ Forall (fun c => is_numeral c = true) r).
  { intros d. pose proof (lit_uint_numeral d) as F.
    destruct d; cbn [NilZero.string_of_uint NilEmpty.string_of_uint] in *;
      rewrite ?lit_String in *;
      try (apply Forall_cons_1 in F as [F1 F2]; eauto; fail).
    exists 48%N, []. repeat split; constructor. }
  destruct (Z.to_int n) as [d|d]; cbn [NilZero.string_of_int].
  - apply U.
  - rewrite lit_String. destruct (U d) as (c & r & -> & Hc & Hr).
    exists 45%N, (c :: r). repeat split. constructor; assumption.
Qed.

Lemma numeral_plain (c : N) :
  is_numeral c = true -> isspace c = false /\ c <> 13%N /\ c <> bar.
Proof.
  unfold is_numeral, isspace, bar. intros H.
  apply orb_prop in H as [[H1 H2]%andb_prop|H].
  - apply N.leb_le in H1, H2. repeat split; try lia.
    repeat (apply orb_false_intro); try apply andb_false_iff;
      rewrite ?N.leb_gt, ?N.eqb_neq; lia.
  - apply N.eqb_eq in H as ->. repeat split; discriminate.
Qed.

Lemma universal_newlines_app (a : str) (c : N) (m : str) :
  Forall (fun x => x <> 13%N) a -> c <> 13%N ->
  universal_newlines (a ++ c :: m) = a ++ c :: universal_newlines m.
Proof.
  intros Ha Hc. induction Ha as [|x a Hx Ha IH]; cbn [app universal_newlines].
  - apply N.eqb_neq in Hc. rewrite Hc. reflexivity.
  - apply N.eqb_neq in Hx. rewrite Hx, IH. reflexivity.
Qed.

Lemma lstrip_keep (u : str) (c : N) (v : str) :
  isspace c = false -> lstrip (u ++ c :: v) = lstrip u ++ c :: v.
Proof.
  intros Hc. induction u as [|x u IH]; cbn [app lstrip].
  - rewrite Hc. reflexivity.
  - destruct (isspace x); [exact IH|reflexivity].
Qed.

Lemma strip_keep (x : N) (a : str) (c : N) (m : str) :
  isspace x = false -> isspace c = false ->
  strip (x :: a ++ c :: m) = x :: a ++ c :: rstrip m.
Proof.
  intros Hx Hc. unfold strip. cbn [lstrip]. rewrite Hx. unfold rstrip.
  change (x :: a ++ c :: m) with ((x :: a) ++ c :: m).
  rewrite rev_app_distr. cbn [rev]. rewrite <- app_assoc. cbn [app].
  rewrite (lstrip_keep (rev m) c (rev a ++ [x]) Hc).
  rewrite rev_app_distr. cbn [rev]. rewrite rev_app_distr, rev_involutive.
  cbn [rev app]. rewrite <- app_assoc. reflexivity.
Qed.

Lemma split_once_from_bar (sep : N) (a cur r : str) :
  ~ In sep a -> split_once_from sep cur (a ++ sep :: r) = [rev cur ++ a; r].
Proof.
  revert cur. induction a as [|x a IH]; intros cur H; cbn [app split_once_from].
  - rewrite N.eqb_refl, app_nil_r. reflexivity.
  - destruct (N.eqb_spec x sep) as [->|_]; [exfalso; apply H; left; reflexivity|].
    rewrite IH by (intros ?; apply H; right; assumption).
    cbn [rev]. rewrite <- app_assoc. reflexivity.
Qed.

Lemma split_once_from_whole (sep : N) (cur s : str) :
  ~ In sep s -> split_once_from sep cur s = [rev cur ++ s].
Proof.
  revert cur. induction s as [|x s IH]; intros cur H; cbn [split_once_from].
  - rewrite app_nil_r. reflexivity.
  - destruct (N.eqb_spec x sep) as [->|_]; [exfalso; apply H; left; reflexivity|].
    rewrite IH by (intros ?; apply H; right; assumption).
    cbn [rev]. rewrite <- app_assoc. reflexivity.
Qed.

Lemma universal_newlines_In (x : N) (n : nat) :
  forall s, length s <= n -> In x (universal_newlines s) -> x = 10%N \/ In x s.
Proof.
  induction n as [|n IH]; intros s Hn.
  - destruct s; [intros []|cbn in Hn; lia].
  - destruct s as [|c r]; [intros []|]. cbn [length] in Hn.
    cbn [universal_newlines]. destruct (c =? 13)%N.
    + intros [<-|H]; [left; reflexivity|].
      destruct r as [|c' r']; [destruct H|]. cbn [length] in Hn.
      destruct (c' =? 10)%N.
      * destruct (IH r' ltac:(lia) H) as [->|H']; [left; reflexivity|].
        right. right. right. exact H'.
      * destruct (IH (c' :: r') ltac:(cbn [length]; lia) H) as [->|H'];
          [left; reflexivity|]. right. right. exact H'.
    + intros [<-|H]; [right; left; reflexivity|].
      destruct (IH r ltac:(lia) H) as [->|H']; [left; reflexivity|].
      right. right. exact H'.
Qed.

Lemma contains_one (c : N) (s : str) :
  contains [c] s = false <-> ~ In c s.
Proof.
  induction s as [|x s IH].
  - cbn. intuition.
  - rewrite contains_cons. cbn [startswith In]. rewrite andb_true_r, orb_false_iff, IH.
    rewrite N.eqb_neq. intuition.
Qed.

Lemma string_of_lit (t : string) : string_of_str (lit t) = Some t.
Proof.
  induction t as [|a t IH]; [reflexivity|].
  rewrite lit_String. cbn [string_of_str]. rewrite IH. unfold ascii_of_char.
  pose proof (N_ascii_bounded a) as B. apply N.ltb_lt in B. rewrite B.
  rewrite ascii_N_embedding. reflexivity.
Qed.

Lemma decimal_str_of_int (n : Z) : decimal (str_of_int n) = inl n.
Proof.
  unfold decimal, str_of_int. rewrite string_of_lit.
  rewrite NilZero.isi.
  - rewrite DecimalZ.of_to. reflexivity.
  - destruct n; cbn; try discriminate.
    intros [= H]. exact (DecimalPos.Unsigned.to_uint_nonnil _ H).
  - destruct n; cbn; try discriminate.
    intros [= H]. exact (DecimalPos.Unsigned.to_uint_nonnil _ H).
Qed.

End Progress.

Lemma status_of_written (int_ : str -> Z + str) (message : str) (percentage : Z) :
  int_ (str_of_int percentage) = inl percentage ->
  Whisper.status int_ (Some (str_of_int percentage ++ lit "|" ++ message))
  = (percentage, rstrip (Whisper.universal_newlines message)).
Proof.
  intros Hint. unfold Whisper.status.
  destruct (str_of_int_numeral percentage) as (c & r & E & Hc & Hr).
  assert (P : forall x, Whisper.is_numeral x = true ->
                        isspace x = false /\ x <> 13%N /\ x <> Whisper.bar)
    by apply numeral_plain.
  change (lit "|" ++ message) with (Whisper.bar :: message).
  unfold char, str in *.
  rewrite (universal_newlines_app (str_of_int percentage) Whisper.bar message).
  - rewrite E. cbn [app].
    rewrite (strip_keep c r Whisper.bar _ (proj1 (P c Hc)) eq_refl).
    unfold Whisper.split_once.
    change (c :: r ++ Whisper.bar :: ?m) with ((c :: r) ++ Whisper.bar :: m).
    rewrite (split_once_from_bar Whisper.bar (c :: r)).
    + cbn [rev app]. rewrite <- E, Hint. reflexivity.
    + intros [Hb|H]; [apply (P _ Hc); exact Hb|].
      rewrite List.Forall_forall in Hr. apply (P _ (Hr _ H)). reflexivity.
  - rewrite E. constructor; [apply (P c Hc)|].
    eapply List.Forall_impl; [|exact Hr]. intros x Hx. apply (P x Hx).
  - discriminate.
Qed.

(** X17.  What [update_progress] writes, [status] reads back.  For an [int]
    percentage of 4300 digits at most and a message such that the encoding
    of the file holds the text written, [update_progress(message,
    percentage)] returns without an exception, and [status()] after it
    answers with that percentage (which [int] reads back from its [str]);
    the message comes back with its line ends read as newlines and the blanks
    at its end stripped.  A bar inside the message does no harm, the split
    being at the first bar only.  In every other case [update_progress]
    raises and leaves the file empty, and [status()] answers [-1] with the
    text of the unpacking error. *)
Theorem status_reads_what_update_progress_wrote
    (int_ : str -> Z + str) (encodable : str -> bool)
    (message : str) (percentage : Z) :
  (Whisper.too_long percentage = false ->
   encodable (str_of_int percentage ++ lit "|" ++ message) = true ->
   int_ (str_of_int percentage) = inl percentage ->
   (Whisper.update_progress encodable message percentage).2 = None
   /\ Whisper.status int_ (Whisper.update_progress encodable message percentage).1
      = (percentage, rstrip (Whisper.universal_newlines message)))
  /\ ((Whisper.update_progress encodable message percentage).2 <> None
      <-> Whisper.too_long percentage = true
          \/ encodable (str_of_int percentage ++ lit "|" ++ message) = false)
  /\ ((Whisper.update_progress encodable message percentage).2 <> None ->
      Whisper.status int_ (Whisper.update_progress encodable message percentage).1
      = ((-1)%Z,
         lit "Error reading status: not enough values to unpack (expected 2, got 1)")).
Proof.
  unfold Whisper.update_progress.
  destruct (Whisper.too_long percentage) eqn:T.
  - split; [discriminate|]. split; [|reflexivity].
    split; [auto|discriminate].
  - destruct (encodable (str_of_int percentage ++ lit "|" ++ message)) eqn:En.
    + split; [|split].
      * intros _ _ Hint. split; [reflexivity|].
        apply status_of_written, Hint.
      * split; [intros []; reflexivity|intros [H|H]; discriminate H].
      * intros []. reflexivity.
    + split; [discriminate|]. split; [|reflexivity].
      split; [auto|discriminate].
Qed.

Lemma status_reads_what_update_progress_wrote_witness :
  (Whisper.update_progress Whisper.utf8 (lit "Ready") 100).2 = None
  /\ Whisper.status Whisper.decimal
       (Whisper.update_progress Whisper.utf8 (lit "Ready") 100).1
     = (100%Z, rstrip (Whisper.universal_newlines (lit "Ready"))).
Proof.
  apply (status_reads_what_update_progress_wrote Whisper.decimal Whisper.utf8
           (lit "Ready") 100); vm_compute; reflexivity.
Defined.

(** X18.  A progress file without a bar never breaks [status]: whatever
    [int] does, the answer has the percentage [-1] and the text of the
    unpacking error. *)
Theorem status_without_bar_is_minus_one (int_ : str -> Z + str) (content : str) :
  contains (lit "|") content = false ->
  Whisper.status int_ (Some content)
  = ((-1)%Z,
     lit "Error reading status: not enough values to unpack (expected 2, got 1)").
Proof.
  intros H. unfold Whisper.status, Whisper.split_once.
  rewrite split_once_from_whole; [reflexivity|].
  change (lit "|") with [Whisper.bar] in H. apply contains_one in H.
  intros Hin.
  destruct (strip_inside (Whisper.universal_newlines content)) as (a & b & E).
  assert (Hu : In Whisper.bar (Whisper.universal_newlines content)).
  { rewrite E. apply in_or_app. right. apply in_or_app. left. exact Hin. }
  apply (universal_newlines_In _ (length content) content (le_n _)) in Hu
    as [Hu|Hu]; [discriminate Hu|]. exact (H Hu).
Qed.

Lemma status_without_bar_is_minus_one_witness :
  Whisper.status Whisper.decimal (Some (lit "Ready"))
  = ((-1)%Z,
     lit "Error reading status: not enough values to unpack (expected 2, got 1)").
Proof.
  apply (status_without_bar_is_minus_one Whisper.decimal (lit "Ready")).
  reflexivity.
Defined.

Section Bound.

Lemma bound_set_session (sid : nat) (s : session) (st : state) :
  e_bound s -> Forall e_bound (threads st) ->
  Forall e_bound (threads (set_session sid s st)).
Proof.
  intros Hs H. cbn [set_session threads with_threads].
  apply Forall_insert; assumption.
Qed.

Lemma bound_on_send (st : state) :
  Forall e_bound (threads st) -> Forall e_bound (threads (on_send st)).
Proof.
  intros H. unfold on_send. destruct (truthy (strip (entry st))); [|exact H].
  unfold add_message.
  destruct (save_history_core (scroll_to_bottom
      (append_box (new_box (strip (entry st)) true) st))) as (Ht & _).
  destruct (save_history _) as [st1 [ex|]]; cbn [fst] in Ht.
  - rewrite Ht. exact H.
  - cbn [start_thread threads with_threads with_entry]. rewrite Ht.
    apply Forall_app. split; [exact H|]. repeat constructor.
Qed.

Lemma bound_worker (sid : nat) (a : action) (st : state) :
  Forall e_bound (threads st) -> Forall e_bound (threads (worker sid a st)).
Proof.
  intros H. unfold worker.
  destruct (threads st !! sid) as [s|] eqn:Hs; [|exact H].
  assert (Bs : e_bound s).
  { exact (Forall_lookup_1 _ _ _ _ H Hs). }
  assert (Hh : forall ex, Forall e_bound (threads (handle sid s ex st))).
  { intros ex. unfold handle. cbn [threads idle_add with_idle].
    apply bound_set_session; [|exact H]. unfold e_bound. cbn. discriminate. }
  unfold e_bound in Bs.
  destruct a as [| | | | |? r|? ev| |]; try exact H;
    destruct (at_ s) eqn:Hat; try exact H.
  - unfold enter. apply bound_set_session; [reflexivity|exact H].
  - unfold answer. destruct r as [ex|n]; [apply Hh|].
    destruct (ok n); cbn [threads idle_add with_idle];
      (apply bound_set_session; [|exact H]); unfold e_bound; cbn; exact Bs.
  - unfold receive. destruct ev as [[|ex|chunk]| |ex]; try exact H; try apply Hh.
    + destruct (is_JSONDecodeError ex); [exact H|apply Hh].
    + destruct (chunk_text chunk) as [[text|]|ex]; try exact H; try apply Hh.
      apply bound_set_session; [|exact H]. unfold e_bound. cbn. exact Bs.
    + cbn [threads idle_add with_idle]. apply bound_set_session; [|exact H].
      unfold e_bound. cbn. exact Bs.
  - unfold post_update. cbn [threads idle_add with_idle].
    apply bound_set_session; [|exact H]. unfold e_bound. cbn. exact Bs.
  - unfold leave. apply bound_set_session; [reflexivity|exact H].
Qed.

Lemma bound_step (a : action) (st : state) :
  Forall e_bound (threads st) -> Forall e_bound (threads (step a st)).
Proof.
  intros H. destruct a; cbn [step]; try (apply bound_worker; exact H).
  - exact H.
  - apply bound_on_send, H.
  - rewrite on_delete_clicked_threads. exact H.
  - rewrite dispatch_threads. exact H.
Qed.

Lemma reachable_bound (st : state) : reachable st -> Forall e_bound (threads st).
Proof.
  intros (d & st0 & acts & Hst & <-).
  assert (H0 : Forall e_bound (threads st0)).
  { unfold started in Hst.
    assert (Ht : threads (fst (load_history (blank d))) = []).
    { unfold load_history. destruct (disk (blank d)) as [| | |j]; try reflexivity.
      destruct (iterate j) as [msgs|ex]; [|reflexivity].
      destruct (load_boxes_core msgs (blank d)) as (Ht & _).
      destruct (load_boxes msgs (blank d)) as [st1 [ex|]]; exact Ht. }
    destruct (load_history (blank d)) as [st1 [ex|]]; [discriminate|].
    injection Hst as <-. cbn [fst] in Ht. rewrite Ht. constructor. }
  clear Hst. revert st0 H0. induction acts as [|a acts IH]; intros st0 H0; [exact H0|].
  rewrite run_cons. apply IH, bound_step, H0.
Qed.

Lemma reachable_refused_queued : reachable refused_queued.
Proof. unfold refused_queued. apply reachable_run, reachable_waiting. Qed.

Lemma reachable_refused_left : reachable refused_left.
Proof. unfold refused_left. apply reachable_run, reachable_waiting. Qed.

End Bound.

(** X19.  The lambda of the exception path reads [e] when it runs.  In a
    reachable state with that lambda at the head of the idle queue: while
    its thread is still inside the [except] clause, the lambda appends one
    assistant box with the text of the exception; once the thread has left
    the clause, [e] is unbound, the lambda raises [NameError], and the main
    loop has done nothing but drop it: no box, no callback, no write. *)
Theorem exception_text_needs_the_clause_open
    (st : state) (sid : nat) (s : session) (q : list closure) :
  reachable st ->
  idle st = report_exception sid :: q ->
  threads st !! sid = Some s ->
  (at_ s = Handling ->
     exists ex, e s = Some ex
       /\ messages_box (step Dispatch st)
          = messages_box st
            ++ [(fresh st, new_box (lit "Error: " ++ message ex) false)])
  /\ (at_ s <> Handling -> step Dispatch st = with_idle q st).
Proof.
  intros R Hq Hs.
  assert (B : e_bound s).
  { exact (Forall_lookup_1 _ _ _ _ (reachable_bound st R) Hs). }
  unfold e_bound in B. cbn [step]. unfold dispatch. rewrite Hq.
  cbn [run_closure error_text threads with_idle]. rewrite Hs. split.
  - intros Hat. rewrite Hat in B. destruct (e s) as [ex|]; [|congruence].
    exists ex. split; reflexivity.
  - intros Hat. destruct (at_ s); try congruence; rewrite B; reflexivity.
Qed.

Lemma exception_text_needs_the_clause_open_witness :
  messages_box (step Dispatch refused_queued)
    = messages_box refused_queued
      ++ [(2, new_box (lit "Error: Connection refused") false)]
  /\ step Dispatch refused_left = with_idle [] refused_left.
Proof.
  split.
  - destruct (exception_text_needs_the_clause_open refused_queued 0
      {| prompt := lit "hi"; live_box := Some 1; full_response := [];
         e := Some (Exn RequestException (lit "Connection refused"));
         at_ := Handling |} [] reachable_refused_queued eq_refl eq_refl)
      as [A _].
    destruct (A eq_refl) as (ex & E & M). injection E as <-. exact M.
  - destruct (exception_text_needs_the_clause_open refused_left 0
      {| prompt := lit "hi"; live_box := Some 1; full_response := [];
         e := None; at_ := Exited |} [] reachable_refused_left eq_refl eq_refl)
      as [_ B].
    apply B. discriminate.
Defined.

Section Leaving.

Lemma remove_box_keeps (id id' : nat) (boxes : children) :
  id' <> id -> In id (map fst boxes) -> In id (map fst (remove_box id' boxes)).
Proof.
  intros Hne ([i b] & E & Hin)%in_map_iff. cbn in E. subst i.
  apply in_map_iff. exists (id, b). split; [reflexivity|].
  apply remove_box_In. split; [exact Hin | cbn; congruence].
Qed.

Lemma append_boxes_keeps (id : nat) (boxes : list MessageBox) (st : state) :
  In id (map fst (messages_box st)) ->
  In id (map fst (messages_box (append_boxes boxes st))).
Proof.
  intros H. rewrite append_boxes_messages_fst. apply in_or_app. left. exact H.
Qed.

Lemma add_message_keeps (id : nat) (text : str) (user : bool) (st : state) :
  In id (map fst (messages_box st)) ->
  In id (map fst (messages_box (fst (add_message text user st)))).
Proof.
  intros H. unfold add_message.
  assert (K : In id (map fst (messages_box
                (scroll_to_bottom (append_box (new_box text user) st))))).
  { cbn [scroll_to_bottom idle_add with_idle append_box messages_box].
    rewrite map_app. apply in_or_app. left. exact H. }
  destruct user; [|exact K]. rewrite save_history_messages. exact K.
Qed.

Lemma on_send_keeps (id : nat) (st : state) :
  In id (map fst (messages_box st)) -> In id (map fst (messages_box (on_send st))).
Proof.
  intros H. unfold on_send. destruct (truthy (strip (entry st))); [|exact H].
  pose proof (add_message_keeps id (strip (entry st)) true st H) as K.
  destruct (add_message (strip (entry st)) true st) as [st1 [ex|]]; exact K.
Qed.

Lemma worker_keeps (id sid : nat) (a : action) (st : state) :
  In id (map fst (messages_box st)) ->
  In id (map fst (messages_box (worker sid a st))).
Proof.
  intros H.
  assert (Later : (forall sid', a <> Enter sid') ->
                  In id (map fst (messages_box (worker sid a st)))).
  { intros Ha. destruct (later_worker_steps_keep_widgets sid a st Ha) as (-> & _).
    exact H. }
  destruct a; try (apply Later; intros ? E; discriminate E).
  unfold worker. destruct (threads st !! sid) as [s|]; [|exact H].
  destruct (at_ s); try exact H.
  cbn. rewrite map_app. apply in_or_app. left. exact H.
Qed.

End Leaving.

(** X20.  A box leaves the window in two ways only: by a click on its own
    delete button, or as the live box of the thread whose
    [split_and_create_boxes] runs.  No other step of a run removes a box; in
    particular the error lambdas leave the live box with its dots where it
    is. *)
Theorem box_leaves_by_delete_or_split (a : action) (st : state) (id : nat) :
  In id (map fst (messages_box st)) ->
  ~ In id (map fst (messages_box (step a st))) ->
  a = Delete id
  \/ (a = Dispatch
      /\ exists sid q s, idle st = split_and_create_boxes sid :: q
                         /\ threads st !! sid = Some s /\ live_box s = Some id).
Proof.
  intros Hin Hout.
  destruct a as [text| |id'| |sid|sid r|sid ev|sid|sid]; cbn [step] in Hout;
    try (exfalso; apply Hout; apply worker_keeps; exact Hin).
  - exfalso. apply Hout. exact Hin.
  - exfalso. apply Hout, on_send_keeps, Hin.
  - destruct (Nat.eq_dec id' id) as [->|Hne]; [left; reflexivity|].
    exfalso. apply Hout. unfold on_delete_clicked.
    destruct (find_box id' (messages_box st)) as [box|]; [|exact Hin].
    destruct (truth (is_code box)); [exact Hin|].
    rewrite save_history_messages. cbn [with_messages messages_box].
    apply remove_box_keeps; assumption.
  - right. split; [reflexivity|].
    unfold dispatch in Hout.
    destruct (idle st) as [|c q] eqn:Hq; [exfalso; apply Hout; exact Hin|].
    destruct c as [|sid|sid|sid n|sid]; cbn [run_closure] in Hout.
    + exfalso. apply Hout. exact Hin.
    + exfalso. apply Hout. cbn [threads with_idle].
      destruct (threads st !! sid) as [s|]; [|exact Hin].
      cbn [record scroll_to_bottom idle_add with_idle with_messages messages_box].
      unfold on_live. destruct (live_box s); [|exact Hin].
      rewrite set_text_fst. exact Hin.
    + cbn [threads with_idle] in Hout.
      destruct (threads st !! sid) as [s|] eqn:Hs; [|exfalso; apply Hout; exact Hin].
      destruct (live_box s) as [id'|] eqn:Hl.
      * destruct (Nat.eq_dec id' id) as [->|Hne]; [exists sid, q, s; auto|].
        exfalso. apply Hout. cbn [record messages_box].
        rewrite save_history_messages.
        cbn [scroll_to_bottom idle_add with_idle messages_box].
        apply append_boxes_keeps. cbn [with_messages messages_box].
        unfold on_live. rewrite Hl. apply remove_box_keeps; assumption.
      * exfalso. apply Hout. cbn [record messages_box].
        rewrite save_history_messages.
        cbn [scroll_to_bottom idle_add with_idle messages_box].
        apply append_boxes_keeps. cbn [with_messages messages_box].
        unfold on_live. rewrite Hl. exact Hin.
    + exfalso. apply Hout.
      destruct (error_text (report_status sid n) (with_idle q st)) as [text|];
        [|exact Hin].
      cbn [record messages_box]. apply add_message_keeps. exact Hin.
    + exfalso. apply Hout.
      destruct (error_text (report_exception sid) (with_idle q st)) as [text|];
        [|exact Hin].
      cbn [record messages_box]. apply add_message_keeps. exact Hin.
Qed.

Lemma box_leaves_by_delete_or_split_witness :
  Dispatch = Delete 1
  \/ (Dispatch = Dispatch
      /\ exists sid q s, idle split_queued = split_and_create_boxes sid :: q
                         /\ threads split_queued !! sid = Some s
                         /\ live_box s = Some 1).
Proof.
  apply (box_leaves_by_delete_or_split Dispatch split_queued 1).
  - right. left. reflexivity.
  - vm_compute. intros [H|[H|[]]]; discriminate H.
Defined.
